(** * Extensions Essence API: data-access and validation layer

    A shallow embedding of [src/main.py] and [src/schemas.py]: the
    identifier codec ([_oid], [_doc_with_id]), the record schemas
    ([Product], [Order] and the models nested in them), the document
    store the handlers talk to, and the product and order handlers. *)

From Stdlib Require Import ZArith NArith Lia.
From Stdlib Require Import Floats.SpecFloat.
From Stdlib Require Import Ascii String.
From Stdlib Require Strings.Byte.
From stdpp Require Import gmap strings list fin_maps.

Local Open Scope string_scope.

(** ** Identifier codec *)

(** Modelled from the spec: the native identifier is [bson.ObjectId], a
    third-party type that is not part of the sources.  Section 3 gives it
    as a 12-byte value rendered as 24 hexadecimal characters; section 4.2
    gives [decode] and [encode] (total).  The constructor is the
    library's: it takes a string of 24 characters and reads it with
    [bytes.fromhex], which skips ASCII whitespace, so the identifier it
    builds from a string with whitespace has fewer than 12 bytes.  The
    bytes are kept as a list. *)
Definition ObjectId : Type := list Byte.byte.

(** Value of one hexadecimal character, digits and letters of either
    case. *)
Definition unhex (c : ascii) : option N :=
  let n := N_of_ascii c in
  if (48 <=? n)%N && (n <=? 57)%N then Some (n - 48)%N
  else if (97 <=? n)%N && (n <=? 102)%N then Some (n - 87)%N
  else if (65 <=? n)%N && (n <=? 70)%N then Some (n - 55)%N
  else None.

(** The character of a nibble, lower case as [binascii.hexlify] writes
    it. *)
Definition hexdigit (n : N) : ascii :=
  if (n <? 10)%N then ascii_of_N (n + 48) else ascii_of_N (n + 87).

(** The ASCII whitespace characters: tab, line feed, vertical tab, form
    feed, carriage return and space. *)
Definition is_space (c : ascii) : bool :=
  let n := N_of_ascii c in
  ((9 <=? n)%N && (n <=? 13)%N) || (n =? 32)%N.

(** [bytes.fromhex]: two hex digits for each byte; ASCII whitespace is
    skipped where a byte may start, not between the two digits of a
    byte. *)
Fixpoint fromhex (s : string) : option (list Byte.byte) :=
  match s with
  | EmptyString => Some []
  | String c1 s1 =>
      if is_space c1 then fromhex s1
      else
        match s1 with
        | EmptyString => None
        | String c2 rest =>
            match unhex c1, unhex c2 with
            | Some h, Some l =>
                match Byte.of_N (16 * h + l), fromhex rest with
                | Some b, Some bs => Some (b :: bs)
                | _, _ => None
                end
            | _, _ => None
            end
        end
  end.

(** [ObjectId(id_str)]: the string has 24 characters and [bytes.fromhex]
    reads it; [None] stands for the [InvalidId] the constructor raises
    otherwise. *)
Definition ObjectId_of_str (s : string) : option ObjectId :=
  if (String.length s =? 24)%nat then fromhex s else None.

Fixpoint hexlify (bs : list Byte.byte) : string :=
  match bs with
  | [] => EmptyString
  | b :: bs' =>
      let n := Byte.to_N b in
      String (hexdigit (n / 16)) (String (hexdigit (n mod 16)) (hexlify bs'))
  end.

(** [str(oid)] *)
Definition ObjectId_str (o : ObjectId) : string := hexlify o.

(** ASCII lower-casing, character by character. *)
Definition ascii_lower (c : ascii) : ascii :=
  let n := N_of_ascii c in
  if (65 <=? n)%N && (n <=? 90)%N then ascii_of_N (n + 32) else c.

Fixpoint str_lower (s : string) : string :=
  match s with
  | EmptyString => EmptyString
  | String c s' => String (ascii_lower c) (str_lower s')
  end.

(** A character is a hexadecimal digit. *)
Definition is_hex (c : ascii) : bool :=
  match unhex c with Some _ => true | None => false end.

Fixpoint all_hex (s : string) : bool :=
  match s with
  | EmptyString => true
  | String c s' => is_hex c && all_hex s'
  end.

(** The well-formed identifier strings of section 4.2. *)
Definition valid_id_string (s : string) : bool :=
  (String.length s =? 24)%nat && all_hex s.

(** The strings [bytes.fromhex] reads: hex digits in pairs, with ASCII
    whitespace before or after any pair. *)
Inductive hex_pairs : string -> Prop :=
  | hex_pairs_end : hex_pairs EmptyString
  | hex_pairs_space c s :
      is_space c = true -> hex_pairs s -> hex_pairs (String c s)
  | hex_pairs_byte c1 c2 s :
      is_hex c1 = true -> is_hex c2 = true -> hex_pairs s ->
      hex_pairs (String c1 (String c2 s)).

(** A string without its ASCII whitespace. *)
Fixpoint unspaced (s : string) : string :=
  match s with
  | EmptyString => EmptyString
  | String c s' => if is_space c then unspaced s' else String c (unspaced s')
  end.

(** ** Python values and documents *)

(** The values the handlers pass around: what [json.loads] produces for a
    request body, what [model_dump] produces, and what the driver stores
    and returns.  A nested dict keeps its items as an association list;
    a [datetime] is kept as milliseconds since the epoch; [VUrl u] is a
    pydantic URL object whose string form is [u]. *)
#[local] Set Warnings "-register-all".

Inductive value : Type :=
  | VNone
  | VBool (b : bool)
  | VInt (z : Z)
  | VFloat (f : spec_float)
  | VStr (s : string)
  | VUrl (u : string)
  | VDatetime (ms : Z)
  | VOid (o : ObjectId)
  | VList (l : list value)
  | VDict (d : list (string * value)).

Definition spec_float_eq_dec (a b : spec_float) : {a = b} + {a <> b}.
Proof.
  decide equality; first [apply Bool.bool_dec | apply Pos.eq_dec | apply Z.eq_dec].
Defined.

Definition value_eq_dec : forall a b : value, {a = b} + {a <> b}.
Proof.
  fix IH 1. intros a b. decide equality.
  - apply Bool.bool_dec.
  - apply Z.eq_dec.
  - apply spec_float_eq_dec.
  - apply String.string_dec.
  - apply String.string_dec.
  - apply Z.eq_dec.
  - apply List.list_eq_dec, Byte.byte_eq_dec.
  - apply List.list_eq_dec, IH.
  - apply List.list_eq_dec. intros [k1 v1] [k2 v2].
    decide equality; first [apply IH | apply String.string_dec].
Defined.

#[global] Instance value_eq_decision : EqDecision value := value_eq_dec.

(** A top-level document (a Python dict keyed by field name). *)
Abbreviation doc := (gmap string value).

(** Item lookup in a nested dict. *)
Fixpoint dget (k : string) (d : list (string * value)) : option value :=
  match d with
  | [] => None
  | (k', v) :: d' => if String.eqb k k' then Some v else dget k d'
  end.

(** Item assignment [d[k] = v] in a nested dict: an existing key keeps its
    place, a new one goes last. *)
Fixpoint dset (k : string) (v : value) (d : list (string * value))
  : list (string * value) :=
  match d with
  | [] => [(k, v)]
  | (k', v') :: d' =>
      if String.eqb k k' then (k', v) :: d' else (k', v') :: dset k v d'
  end.

Definition opt_value {A} (f : A -> value) (o : option A) : value :=
  match o with Some a => f a | None => VNone end.

(** ** Record schemas ([src/schemas.py]) *)

(** One entry of a pydantic validation error: where ([loc]) and which
    constraint ([type]). *)
Inductive loc_item : Type := LKey (k : string) | LIdx (i : nat).

Definition verr : Type := list loc_item * string.

Inductive validated (A : Type) : Type :=
  | Valid (a : A)
  | Invalid (errs : list verr).
Arguments Valid {A} a.
Arguments Invalid {A} errs.

(** Validation goes through every field and reports all the errors it
    meets. *)
Definition ap {A B} (f : validated (A -> B)) (x : validated A) : validated B :=
  match f, x with
  | Valid g, Valid a => Valid (g a)
  | Valid _, Invalid e => Invalid e
  | Invalid e, Valid _ => Invalid e
  | Invalid e1, Invalid e2 => Invalid (e1 ++ e2)
  end.

Infix "<*>" := ap (at level 61, left associativity).

Definition under (i : loc_item) (e : verr) : verr := (i :: e.1, e.2).

Definition at_loc {A} (i : loc_item) (x : validated A) : validated A :=
  match x with
  | Valid a => Valid a
  | Invalid es => Invalid (under i <$> es)
  end.

Definition and_then {A B} (x : validated A) (f : A -> validated B)
  : validated B :=
  match x with
  | Valid a => f a
  | Invalid es => Invalid es
  end.

(** A field declared with [...] (no default). *)
Definition required {A} (k : string) (f : value -> validated A)
    (d : list (string * value)) : validated A :=
  match dget k d with
  | Some v => at_loc (LKey k) (f v)
  | None => Invalid [([LKey k], "missing")]
  end.

(** A field declared with a default or a [default_factory]. *)
Definition defaulted {A} (k : string) (dflt : A) (f : value -> validated A)
    (d : list (string * value)) : validated A :=
  match dget k d with
  | Some v => at_loc (LKey k) (f v)
  | None => Valid dflt
  end.

(** Third-party functions the sources call but do not contain:
    pydantic's [HttpUrl] (whether a string parses as an http or https
    URL, and the string form of the URL it parses to, which is the
    normalised URL and parses again), its [EmailStr] syntax check, its
    parsers of a numeric string and of a [datetime], and Python's [str()]
    on values other than an [ObjectId]. *)
Class Library : Type := {
  HttpUrl_ok : string -> bool;
  HttpUrl_str : string -> string;
  HttpUrl_str_ok :
    forall s, HttpUrl_ok s = true -> HttpUrl_ok (HttpUrl_str s) = true;
  EmailStr_ok : string -> bool;
  float_of_str : string -> option spec_float;
  int_of_str : string -> option Z;
  parse_datetime : value -> option Z;
  str_other : value -> string
}.

(** Field types.  The framework validates the parsed JSON body in
    pydantic's lax mode: a field takes a value of its own JSON type as it
    is, and converts some values of the other types. *)
Definition v_str (v : value) : validated string :=
  match v with VStr s => Valid s | _ => Invalid [([], "string_type")] end.

(** [float(z)]: the binary64 number nearest to [z], ties to even;
    infinite when [z] is out of range. *)
Definition float_of_int (z : Z) : spec_float :=
  binary_normalize 53 1024 z 0 false.

Definition is_finite (f : spec_float) : bool :=
  match f with
  | S754_zero _ | S754_finite _ _ _ => true
  | _ => false
  end.

(** An integer that fits 64 bits. *)
Definition int_in_range (z : Z) : validated Z :=
  if ((- 2 ^ 63 <? z) && (z <? 2 ^ 63))%Z then Valid z
  else Invalid [([], "int_parsing_size")].

(** A float taken as an integer: it has to be finite and without a
    fractional part. *)
Definition float_as_int (f : spec_float) : validated Z :=
  match f with
  | S754_zero _ => Valid 0%Z
  | S754_finite sign m e =>
      let z := if sign then Z.neg m else Z.pos m in
      if (0 <=? e)%Z then int_in_range (z * 2 ^ e)
      else if (Z.pos m mod 2 ^ (- e) =? 0)%Z then int_in_range (z / 2 ^ (- e))
      else Invalid [([], "int_from_float")]
  | _ => Invalid [([], "finite_number")]
  end.

(** The strings a bool field takes, compared without regard to case. *)
Definition str_as_bool (s : string) : option bool :=
  let l := str_lower s in
  if String.eqb s "0" || existsb (String.eqb l) ["f"; "n"; "no"; "off"; "false"]
  then Some false
  else if String.eqb s "1"
          || existsb (String.eqb l) ["t"; "y"; "on"; "yes"; "true"]
  then Some true
  else None.

Definition int_as_bool (z : Z) : validated bool :=
  if (z =? 0)%Z then Valid false
  else if (z =? 1)%Z then Valid true
  else Invalid [([], "bool_parsing")].

Definition v_bool (v : value) : validated bool :=
  match v with
  | VBool b => Valid b
  | VStr s =>
      match str_as_bool s with
      | Some b => Valid b
      | None => Invalid [([], "bool_parsing")]
      end
  | VInt z =>
      if ((- 2 ^ 63 <=? z) && (z <? 2 ^ 63))%Z then int_as_bool z
      else Invalid [([], "bool_type")]
  | VFloat f =>
      match float_as_int f with
      | Valid z => int_as_bool z
      | Invalid _ => Invalid [([], "bool_type")]
      end
  | _ => Invalid [([], "bool_type")]
  end.

Definition v_int `{Library} (v : value) : validated Z :=
  match v with
  | VInt z => Valid z
  | VBool b => Valid (Z.b2z b)
  | VStr s =>
      match int_of_str s with
      | Some z => Valid z
      | None => Invalid [([], "int_parsing")]
      end
  | VFloat f => float_as_int f
  | _ => Invalid [([], "int_type")]
  end.

Definition v_float `{Library} (v : value) : validated spec_float :=
  match v with
  | VFloat f => Valid f
  | VInt z =>
      if is_finite (float_of_int z) then Valid (float_of_int z)
      else Invalid [([], "float_type")]
  | VBool b => Valid (float_of_int (Z.b2z b))
  | VStr s =>
      match float_of_str s with
      | Some f => Valid f
      | None => Invalid [([], "float_parsing")]
      end
  | _ => Invalid [([], "float_type")]
  end.

Definition float_zero : spec_float := S754_zero false.

(** [Field(..., ge=0)] on a float *)
Definition ge_0 (f : spec_float) : validated spec_float :=
  if SFleb float_zero f then Valid f
  else Invalid [([], "greater_than_equal")].

(** [Field(..., ge=1)] on an int *)
Definition ge_1 (z : Z) : validated Z :=
  if (1 <=? z)%Z then Valid z else Invalid [([], "greater_than_equal")].

(** [Optional[T]] *)
Definition v_optional {A} (f : value -> validated A) (v : value)
  : validated (option A) :=
  match v with
  | VNone => Valid None
  | _ => Valid Some <*> f v
  end.

(** [List[T]]: the items in order, each error under its index. *)
Fixpoint v_items {A} (f : value -> validated A) (i : nat) (l : list value)
  : validated (list A) :=
  match l with
  | [] => Valid []
  | x :: l' => Valid cons <*> at_loc (LIdx i) (f x) <*> v_items f (S i) l'
  end.

Definition v_list {A} (f : value -> validated A) (v : value)
  : validated (list A) :=
  match v with
  | VList l => v_items f 0 l
  | _ => Invalid [([], "list_type")]
  end.

(** [class BaseModel]: what the handlers use of a pydantic model. *)
Class BaseModel (A : Type) : Type := {
  model_dump : A -> doc
}.

(** [url] holds the [HttpUrl] object, by its string form. *)
Record ProductImage : Type := {
  url : string;
  alt : option string
}.

Record Product : Type := {
  title : string;
  description : option string;
  price : spec_float;
  category : string;
  subcategory : option string;
  images : list ProductImage;
  in_stock : bool;
  featured : bool;
  tags : list string
}.

(** [model_dump()] leaves the URL object in place. *)
Definition ProductImage_model_dump (i : ProductImage) : value :=
  VDict [("url", VUrl (url i)); ("alt", opt_value VStr (alt i))].

Definition Product_model_dump (p : Product) : doc :=
  <["title" := VStr (title p)]> (
  <["description" := opt_value VStr (description p)]> (
  <["price" := VFloat (price p)]> (
  <["category" := VStr (category p)]> (
  <["subcategory" := opt_value VStr (subcategory p)]> (
  <["images" := VList (ProductImage_model_dump <$> images p)]> (
  <["in_stock" := VBool (in_stock p)]> (
  <["featured" := VBool (featured p)]> (
  <["tags" := VList (VStr <$> tags p)]> ∅)))))))).

#[global] Instance Product_BaseModel : BaseModel Product := {
  model_dump := Product_model_dump
}.

Record CartItem : Type := {
  product_id : string;
  quantity : Z
}.

Record OrderCustomer : Type := {
  name : string;
  email : string;
  phone : string
}.

Record OrderAddress : Type := {
  line1 : string;
  line2 : option string;
  city : string;
  state : option string;
  postal_code : option string;
  country : string
}.

Record Order : Type := {
  items : list CartItem;
  amount : spec_float;
  currency : string;
  payment_provider : string;
  payment_id : option string;
  status : string;
  customer : OrderCustomer;
  address : OrderAddress;
  delivery_option : string;
  created_at : option Z
}.

Definition CartItem_model_dump (i : CartItem) : value :=
  VDict [("product_id", VStr (product_id i)); ("quantity", VInt (quantity i))].

Definition OrderCustomer_model_dump (c : OrderCustomer) : value :=
  VDict [("name", VStr (name c)); ("email", VStr (email c));
         ("phone", VStr (phone c))].

Definition OrderAddress_model_dump (a : OrderAddress) : value :=
  VDict [("line1", VStr (line1 a)); ("line2", opt_value VStr (line2 a));
         ("city", VStr (city a)); ("state", opt_value VStr (state a));
         ("postal_code", opt_value VStr (postal_code a));
         ("country", VStr (country a))].

Definition Order_model_dump (o : Order) : doc :=
  <["items" := VList (CartItem_model_dump <$> items o)]> (
  <["amount" := VFloat (amount o)]> (
  <["currency" := VStr (currency o)]> (
  <["payment_provider" := VStr (payment_provider o)]> (
  <["payment_id" := opt_value VStr (payment_id o)]> (
  <["status" := VStr (status o)]> (
  <["customer" := OrderCustomer_model_dump (customer o)]> (
  <["address" := OrderAddress_model_dump (address o)]> (
  <["delivery_option" := VStr (delivery_option o)]> (
  <["created_at" := opt_value VDatetime (created_at o)]> ∅))))))))).

#[global] Instance Order_BaseModel : BaseModel Order := {
  model_dump := Order_model_dump
}.

(** [HttpUrl]: a string that parses is taken as the URL it parses to; a
    URL object is taken as it is when it is an http or https URL. *)
Definition v_HttpUrl `{Library} (v : value) : validated string :=
  match v with
  | VStr s =>
      if HttpUrl_ok s then Valid (HttpUrl_str s)
      else Invalid [([], "url_parsing")]
  | VUrl u => if HttpUrl_ok u then Valid u else Invalid [([], "url_scheme")]
  | _ => Invalid [([], "url_type")]
  end.

Definition v_EmailStr `{Library} (v : value) : validated string :=
  and_then (v_str v) (fun s =>
    if EmailStr_ok s then Valid s else Invalid [([], "value_error")]).

Definition v_datetime `{Library} (v : value) : validated Z :=
  match parse_datetime v with
  | Some ms => Valid ms
  | None => Invalid [([], "datetime_type")]
  end.

Definition ProductImage_validate `{Library} (v : value) : validated ProductImage :=
  match v with
  | VDict d =>
      Valid Build_ProductImage
        <*> required "url" v_HttpUrl d
        <*> defaulted "alt" None (v_optional v_str) d
  | _ => Invalid [([], "model_type")]
  end.

Definition Product_validate `{Library} (v : value) : validated Product :=
  match v with
  | VDict d =>
      Valid Build_Product
        <*> required "title" v_str d
        <*> defaulted "description" None (v_optional v_str) d
        <*> required "price" (fun x => and_then (v_float x) ge_0) d
        <*> required "category" v_str d
        <*> defaulted "subcategory" None (v_optional v_str) d
        <*> defaulted "images" [] (v_list ProductImage_validate) d
        <*> defaulted "in_stock" true v_bool d
        <*> defaulted "featured" false v_bool d
        <*> defaulted "tags" [] (v_list v_str) d
  | _ => Invalid [([], "model_type")]
  end.


Definition CartItem_validate `{Library} (v : value) : validated CartItem :=
  match v with
  | VDict d =>
      Valid Build_CartItem
        <*> required "product_id" v_str d
        <*> defaulted "quantity" 1%Z (fun x => and_then (v_int x) ge_1) d
  | _ => Invalid [([], "model_type")]
  end.

Definition OrderCustomer_validate `{Library} (v : value) : validated OrderCustomer :=
  match v with
  | VDict d =>
      Valid Build_OrderCustomer
        <*> required "name" v_str d
        <*> required "email" v_EmailStr d
        <*> required "phone" v_str d
  | _ => Invalid [([], "model_type")]
  end.

Definition OrderAddress_validate (v : value) : validated OrderAddress :=
  match v with
  | VDict d =>
      Valid Build_OrderAddress
        <*> required "line1" v_str d
        <*> defaulted "line2" None (v_optional v_str) d
        <*> required "city" v_str d
        <*> defaulted "state" None (v_optional v_str) d
        <*> defaulted "postal_code" None (v_optional v_str) d
        <*> defaulted "country" "NG" v_str d
  | _ => Invalid [([], "model_type")]
  end.

Definition Order_validate `{Library} (v : value) : validated Order :=
  match v with
  | VDict d =>
      Valid Build_Order
        <*> required "items" (v_list CartItem_validate) d
        <*> required "amount" (fun x => and_then (v_float x) ge_0) d
        <*> defaulted "currency" "NGN" v_str d
        <*> required "payment_provider" v_str d
        <*> defaulted "payment_id" None (v_optional v_str) d
        <*> defaulted "status" "pending" v_str d
        <*> required "customer" OrderCustomer_validate d
        <*> required "address" OrderAddress_validate d
        <*> defaulted "delivery_option" "standard" v_str d
        <*> defaulted "created_at" None (v_optional v_datetime) d
  | _ => Invalid [([], "model_type")]
  end.

(** ** Document store *)

(** The driver sends a document as BSON.  It encodes the values of the
    built-in types (an integer is taken to fit the 64 bits BSON has for
    it) and raises [InvalidDocument], "cannot encode object", for an
    object of another class, as a pydantic URL object is. *)
Fixpoint encodable (v : value) : bool :=
  match v with
  | VUrl _ => false
  | VList l => forallb encodable l
  | VDict d => forallb (fun kv => encodable kv.2) d
  | _ => true
  end.

Definition encodable_doc (d : doc) : Prop :=
  map_Forall (fun _ v => encodable v = true) d.

#[global] Instance encodable_doc_dec d : Decision (encodable_doc d).
Proof. unfold encodable_doc. apply _. Defined.

(** Modelled from the spec: the pymongo driver and [database.py] ([db],
    [create_document], [get_documents]) are not part of the sources.
    Section 4.3 gives the gateway: a collection is the sequence of its
    documents in insertion order; a filter matches the documents that
    agree with all of its key/value equalities; [insert] persists exactly
    one new document under a store-generated identifier; [update] touches
    the matched document and returns the matched count; [delete] returns
    the deleted count. *)
Definition matches (q d : doc) : Prop :=
  map_Forall (fun k v => d !! k = Some v) q.

#[global] Instance matches_dec q d : Decision (matches q d).
Proof. unfold matches. apply _. Defined.

Definition coll_find (q : doc) (c : list doc) : list doc :=
  filter (matches q) c.

Definition coll_find_one (q : doc) (c : list doc) : option doc :=
  head (coll_find q c).

(** [update_one(q, {"$set": data})]: the first match gets the items of
    [data]; the result carries [matched_count]. *)
Fixpoint coll_update_one (q data : doc) (c : list doc) : list doc * Z :=
  match c with
  | [] => ([], 0%Z)
  | d :: c' =>
      if decide (matches q d) then ((data ∪ d) :: c', 1%Z)
      else let '(c'', n) := coll_update_one q data c' in (d :: c'', n)
  end.

(** [delete_one(q)]: the first match goes; the result carries
    [deleted_count]. *)
Fixpoint coll_delete_one (q : doc) (c : list doc) : list doc * Z :=
  match c with
  | [] => ([], 0%Z)
  | d :: c' =>
      if decide (matches q d) then (c', 1%Z)
      else let '(c'', n) := coll_delete_one q c' in (d :: c'', n)
  end.

Definition coll_insert_one (oid : ObjectId) (d : doc) (c : list doc)
  : list doc :=
  c ++ [<["_id" := VOid oid]> d].

(** The store operations a request can invoke. *)
Inductive call : Type :=
  | Call_find (name : string) (q : doc)
  | Call_find_one (name : string) (q : doc)
  | Call_insert_one (name : string) (d : doc)
  | Call_update_one (name : string) (q data : doc)
  | Call_delete_one (name : string) (q : doc).

(** The process-wide store handle [db]: the collections by name, the
    operations invoked so far (latest first), and the driver's identifier
    generator with the number of identifiers it has handed out. *)
Record world : Type := {
  colls : gmap string (list doc);
  calls : list call;
  oid_gen : nat -> ObjectId;
  oid_count : nat
}.

Definition collection (w : world) (name : string) : list doc :=
  default [] (colls w !! name).

(** The store after operation [c] left collection [name] as [docs]. *)
Definition stored (w : world) (c : call) (name : string) (docs : list doc)
  : world :=
  {| colls := <[name := docs]> (colls w);
     calls := c :: calls w;
     oid_gen := oid_gen w;
     oid_count := oid_count w |}.

(** The store after operation [c] that only read. *)
Definition logged (w : world) (c : call) : world :=
  {| colls := colls w;
     calls := c :: calls w;
     oid_gen := oid_gen w;
     oid_count := oid_count w |}.

(** ** Handlers ([src/main.py]) *)

Inductive exn : Type :=
  | HTTPException (status_code : Z) (detail : string)
  | RequestValidationError (errors : list verr)
  | KeyError (key : string)
  | InvalidDocument.

Inductive outcome (A : Type) : Type :=
  | Return (a : A)
  | Raise (e : exn).
Arguments Return {A} a.
Arguments Raise {A} e.

(** A computation reads and writes the store and returns or raises; what
    it did to the store before raising stays done. *)
Definition M (A : Type) : Type := world -> outcome A * world.

Definition ret {A} (a : A) : M A := fun w => (Return a, w).

Definition raise {A} (e : exn) : M A := fun w => (Raise e, w).

Definition bind {A B} (m : M A) (k : A -> M B) : M B := fun w =>
  match m w with
  | (Return a, w') => k a w'
  | (Raise e, w') => (Raise e, w')
  end.

Notation "x <- m ;; k" := (bind m (fun x => k))
  (at level 100, m at next level, right associativity).

(** A list comprehension over a computation. *)
Fixpoint for_each {A B} (f : A -> M B) (l : list A) : M (list B) :=
  match l with
  | [] => ret []
  | x :: l' => y <- f x ;; ys <- for_each f l' ;; ret (y :: ys)
  end.

Definition find (name : string) (q : doc) : M (list doc) := fun w =>
  (Return (coll_find q (collection w name)), logged w (Call_find name q)).

Definition find_one (name : string) (q : doc) : M (option doc) := fun w =>
  (Return (coll_find_one q (collection w name)),
   logged w (Call_find_one name q)).

(** [update_one(q, {"$set": data})]: the update is encoded before it is
    sent, so a [data] the driver cannot encode raises whether or not a
    document matches. *)
Definition update_one (name : string) (q data : doc) : M Z := fun w =>
  if decide (encodable_doc data) then
    let '(docs, matched_count) := coll_update_one q data (collection w name) in
    (Return matched_count, stored w (Call_update_one name q data) name docs)
  else (Raise InvalidDocument, logged w (Call_update_one name q data)).

Definition delete_one (name : string) (q : doc) : M Z := fun w =>
  let '(docs, deleted_count) := coll_delete_one q (collection w name) in
  (Return deleted_count, stored w (Call_delete_one name q) name docs).

(** [insert_one(d)]: the driver generates the identifier, then encodes
    and sends the document; the result is [inserted_id]. *)
Definition insert_one (name : string) (d : doc) : M ObjectId := fun w =>
  let oid := oid_gen w (oid_count w) in
  if decide (encodable_doc d) then
    (Return oid,
     {| colls :=
          <[name := coll_insert_one oid d (collection w name)]> (colls w);
        calls := Call_insert_one name d :: calls w;
        oid_gen := oid_gen w;
        oid_count := S (oid_count w) |})
  else
    (Raise InvalidDocument,
     {| colls := colls w;
        calls := Call_insert_one name d :: calls w;
        oid_gen := oid_gen w;
        oid_count := S (oid_count w) |}).

(** Modelled from the spec: [database.create_document], the gateway's
    [insert(collection, record)]: the record's fields, as [model_dump]
    gives them, are handed to the driver's [insert_one] to be persisted
    as one new document, and the new identifier comes back as a
    string. *)
Definition create_document {A} `{BaseModel A} (collection_name : string)
    (data : A) : M string :=
  inserted_id <- insert_one collection_name (model_dump data) ;;
  ret (ObjectId_str inserted_id).

(** Modelled from the spec: [database.get_documents], the gateway's
    [findMany(collection, filter, limit?)]: the matching documents in
    insertion order, capped at [limit] when one is given. *)
Definition get_documents (collection_name : string) (filter_dict : doc)
    (limit : option nat) : M (list doc) :=
  docs <- find collection_name filter_dict ;;
  ret (match limit with Some n => take n docs | None => docs end).

Definition _oid (id_str : string) : M ObjectId :=
  match ObjectId_of_str id_str with
  | Some o => ret o
  | None => raise (HTTPException 400 "Invalid id")
  end.

(** [str(v)] *)
Definition py_str `{Library} (v : value) : string :=
  match v with
  | VOid o => ObjectId_str o
  | _ => str_other v
  end.

(** [not doc] for what [find_one] returns: [None] or a dict. *)
Definition falsy (d : option doc) : bool :=
  match d with
  | None => true
  | Some m => bool_decide (m = ∅)
  end.

Definition _doc_with_id `{Library} (d : option doc) : M (option doc) :=
  if falsy d then ret None
  else
    match d with
    | None => ret None
    | Some m =>
        match m !! "_id" with
        | Some v => ret (Some (<["id" := VStr (py_str v)]> (delete "_id" m)))
        | None => raise (KeyError "_id")
        end
    end.

Definition list_products `{Library} (category : option string) (featured : option bool)
  : M (list (option doc)) :=
  let q : doc := ∅ in
  let q :=
    match category with
    | Some c => if String.eqb c "" then q else <["category" := VStr c]> q
    | None => q
    end in
  let q :=
    match featured with
    | Some b => <["featured" := VBool b]> q
    | None => q
    end in
  items <- get_documents "product" q None ;;
  for_each (fun i => _doc_with_id (Some i)) items.

Definition get_product `{Library} (product_id : string) : M (option doc) :=
  o <- _oid product_id ;;
  d <- find_one "product" {["_id" := VOid o]} ;;
  if falsy d then raise (HTTPException 404 "Product not found")
  else _doc_with_id d.

Definition create_product (product : Product) : M doc :=
  new_id <- create_document "product" product ;;
  ret {["id" := VStr new_id]}.

Definition update_product (product_id : string) (product : Product) : M doc :=
  let data := model_dump product in
  o <- _oid product_id ;;
  matched_count <- update_one "product" {["_id" := VOid o]} data ;;
  if (matched_count =? 0)%Z then raise (HTTPException 404 "Product not found")
  else ret (<["id" := VStr product_id]> {["updated" := VBool true]}).

Definition delete_product (product_id : string) : M doc :=
  o <- _oid product_id ;;
  deleted_count <- delete_one "product" {["_id" := VOid o]} ;;
  if (deleted_count =? 0)%Z then raise (HTTPException 404 "Product not found")
  else ret {["deleted" := VBool true]}.

(** The framework validates a request body against the handler's
    parameter type before it calls the handler. *)
Definition POST_products `{Library} (body : value) : M doc :=
  match Product_validate body with
  | Valid product => create_product product
  | Invalid errs => raise (RequestValidationError errs)
  end.

Definition PUT_products `{Library} (product_id : string) (body : value) : M doc :=
  match Product_validate body with
  | Valid product => update_product product_id product
  | Invalid errs => raise (RequestValidationError errs)
  end.

Definition create_order (order : Order) : M doc :=
  new_id <- create_document "order" order ;;
  ret {["id" := VStr new_id]}.

Definition POST_orders `{Library} (body : value) : M doc :=
  match Order_validate body with
  | Valid order => create_order order
  | Invalid errs => raise (RequestValidationError errs)
  end.

(** ** Notions the properties are stated with *)

(** What a handler returns for stored document [d]: the native [_id]
    item gone, its string form under [id]. *)
Definition shaped `{Library} (d : doc) : option doc :=
  match d !! "_id" with
  | Some v => Some (<["id" := VStr (py_str v)]> (delete "_id" d))
  | None => None
  end.

(** Identifier lookup is unique in a collection. *)
Definition unique_ids (c : list doc) : Prop :=
  forall o, (length (coll_find {["_id" := VOid o]} c) <= 1)%nat.

(** Every document of a collection carries an identifier. *)
Definition has_ids (c : list doc) : Prop :=
  Forall (fun d => is_Some (d !! "_id")) c.

(** No document of a collection is identified by [o]. *)
Definition absent (o : ObjectId) (c : list doc) : Prop :=
  Forall (fun d => d !! "_id" <> Some (VOid o)) c.

(** A stored product is selected by category [c] and, when [f] is given,
    by its featured flag. *)
Definition selected (c : string) (f : option bool) (d : doc) : Prop :=
  d !! "category" = Some (VStr c) /\
  match f with
  | Some b => d !! "featured" = Some (VBool b)
  | None => True
  end.

#[global] Instance selected_dec c f d : Decision (selected c f d).
Proof. unfold selected. destruct f; apply _. Defined.

(** The errors a validation reports. *)
Definition errors_of {A} (x : validated A) : list verr :=
  match x with
  | Valid _ => []
  | Invalid es => es
  end.





(** The [Product] fields other than the image gallery. *)
Definition Product_plain_fields : list string :=
  ["title"; "description"; "price"; "category"; "subcategory"; "in_stock";
   "featured"; "tags"].

(** The fields of the [Product] schema. *)
Definition Product_fields : list string := "images" :: Product_plain_fields.

(** An order with one field replaced. *)
Definition with_items (o : Order) (v : list CartItem) : Order :=
  {| items := v; amount := amount o; currency := currency o;
     payment_provider := payment_provider o; payment_id := payment_id o;
     status := status o; customer := customer o; address := address o;
     delivery_option := delivery_option o; created_at := created_at o |}.

Definition with_status (o : Order) (v : string) : Order :=
  {| items := items o; amount := amount o; currency := currency o;
     payment_provider := payment_provider o; payment_id := payment_id o;
     status := v; customer := customer o; address := address o;
     delivery_option := delivery_option o; created_at := created_at o |}.

Definition with_payment_provider (o : Order) (v : string) : Order :=
  {| items := items o; amount := amount o; currency := currency o;
     payment_provider := v; payment_id := payment_id o;
     status := status o; customer := customer o; address := address o;
     delivery_option := delivery_option o; created_at := created_at o |}.

(** The documented values of [Order.status] and
    [Order.payment_provider]. *)
Definition documented_statuses : list string :=
  ["pending"; "paid"; "failed"; "fulfilled"].

Definition documented_providers : list string := ["stripe"; "paystack"].

(** The store invariant: the generator's identifiers have 12 bytes and
    its first [N] are distinct, at most [N] have been handed out, every
    stored document carries one that has been handed out, and identifier
    lookup is unique in every collection. *)
Record world_ok (N : nat) (w : world) : Prop := {
  ok_length : forall n, length (oid_gen w n) = 12%nat;
  ok_distinct : forall n m, (n < N)%nat -> (m < N)%nat ->
    oid_gen w n = oid_gen w m -> n = m;
  ok_count : (oid_count w <= N)%nat;
  ok_handed_out : forall name d, d ∈ collection w name ->
    exists n, (n < oid_count w)%nat /\ d !! "_id" = Some (VOid (oid_gen w n));
  ok_unique : forall name, unique_ids (collection w name)
}.

(** The round trip of the identifier codec on string [s]. *)
Definition roundtrip (s : string) : option string :=
  ObjectId_str <$> ObjectId_of_str s.

(** ** A concrete library, store and requests *)

(** [s] starts with [p]. *)
Fixpoint starts (p s : string) : bool :=
  match p, s with
  | EmptyString, _ => true
  | String a p', String b s' => Ascii.eqb a b && starts p' s'
  | String _ _, EmptyString => false
  end.

(** A stand-in for the URL parser on simple URLs: the host in lower
    case, and [/] for an empty path. *)
Fixpoint lower_host (s : string) : string :=
  match s with
  | EmptyString => "/"
  | String c s' =>
      if Ascii.eqb c "/" then s else String (ascii_lower c) (lower_host s')
  end.

Definition sample_HttpUrl_str (s : string) : string :=
  if starts "https://" s
  then "https://" ++ lower_host (String.substring 8 (String.length s) s)
  else if starts "http://" s
  then "http://" ++ lower_host (String.substring 7 (String.length s) s)
  else s.

(** A stand-in for the parser of numeric strings: decimal digits. *)
Fixpoint digits (s : string) (acc : Z) : option Z :=
  match s with
  | EmptyString => Some acc
  | String c s' =>
      let n := N_of_ascii c in
      if (48 <=? n)%N && (n <=? 57)%N
      then digits s' (10 * acc + Z.of_N (n - 48))%Z
      else None
  end.

Definition sample_int_of_str (s : string) : option Z :=
  if String.eqb s "" then None else digits s 0.

Definition sample_library : Library.
Proof.
  refine {|
    HttpUrl_ok := fun s => starts "http://" s || starts "https://" s;
    HttpUrl_str := sample_HttpUrl_str;
    EmailStr_ok := fun s =>
      match String.index 0 "@" s with Some _ => true | None => false end;
    float_of_str := fun s => float_of_int <$> sample_int_of_str s;
    int_of_str := sample_int_of_str;
    parse_datetime := fun v =>
      match v with VInt ms => Some ms | _ => None end;
    str_other := fun v =>
      match v with VStr s => s | _ => "" end
  |}.
  intros s Hs. unfold sample_HttpUrl_str.
  destruct (starts "https://" s) eqn:H1;
    [|destruct (starts "http://" s) eqn:H2].
  - reflexivity.
  - reflexivity.
  - discriminate Hs.
Defined.

(** A generator that counts in the last byte. *)
Definition counter_gen (n : nat) : ObjectId :=
  (repeat Byte.x00 11 ++ [default Byte.x00 (Byte.of_nat n)])%list.

Definition empty_world : world :=
  {| colls := ∅; calls := []; oid_gen := counter_gen; oid_count := 0 |}.

(** 25.0 and -5.0 as binary64 *)
Definition float_25 : spec_float := S754_finite false 7036874417766400 (-48).


Definition box_braids : list (string * value) :=
  [("title", VStr "Box Braids"); ("price", VFloat float_25);
   ("category", VStr "braids")].

Definition box_braids_product : Product :=
  {| title := "Box Braids"; description := None; price := float_25;
     category := "braids"; subcategory := None; images := [];
     in_stock := true; featured := false; tags := [] |}.

Definition first_id : string := "000000000000000000000000".

Definition box_braids_stored : doc :=
  <["_id" := VOid (counter_gen 0)]> (Product_model_dump box_braids_product).

(** The store after the product has been created. *)
Definition one_product : world :=
  {| colls := {["product" := [box_braids_stored]]};
     calls := [Call_insert_one "product"
                 (Product_model_dump box_braids_product)];
     oid_gen := counter_gen;
     oid_count := 1 |}.


Definition sample_order : list (string * value) :=
  [("items", VList [VDict [("product_id", VStr first_id);
                           ("quantity", VInt 2)]]);
   ("amount", VFloat float_25);
   ("payment_provider", VStr "stripe");
   ("customer", VDict [("name", VStr "Ada"); ("email", VStr "ada@example.com");
                       ("phone", VStr "0800")]);
   ("address", VDict [("line1", VStr "1 Marina"); ("city", VStr "Lagos")])].

Definition sample_order_valid : Order :=
  {| items := [{| product_id := first_id; quantity := 2 |}];
     amount := float_25; currency := "NGN"; payment_provider := "stripe";
     payment_id := None; status := "pending";
     customer := {| name := "Ada"; email := "ada@example.com";
                    phone := "0800" |};
     address := {| line1 := "1 Marina"; line2 := None; city := "Lagos";
                   state := None; postal_code := None; country := "NG" |};
     delivery_option := "standard"; created_at := None |}.


(** A product body with one image, and the product it validates to. *)
Definition gallery : list (string * value) :=
  [("title", VStr "Box Braids"); ("price", VFloat float_25);
   ("category", VStr "braids");
   ("images", VList [VDict [("url", VStr "https://EXAMPLE.com/braids.jpg")]])].

Definition gallery_product : Product :=
  {| title := "Box Braids"; description := None; price := float_25;
     category := "braids"; subcategory := None;
     images := [{| url := "https://example.com/braids.jpg"; alt := None |}];
     in_stock := true; featured := false; tags := [] |}.



(** Twenty-four characters, two of them spaces: eleven bytes. *)
Definition spaced_id : string := "65a1b2c3d4 f60718293a4b ".

Definition spaced_oid : ObjectId :=
  [Byte.x65; Byte.xa1; Byte.xb2; Byte.xc3; Byte.xd4; Byte.xf6; Byte.x07;
   Byte.x18; Byte.x29; Byte.x3a; Byte.x4b].


Definition renamed_product : Product :=
  {| title := "Knotless Braids"; description := None; price := float_25;
     category := "braids"; subcategory := None; images := [];
     in_stock := true; featured := false; tags := [] |}.

(** ** Notions the further properties are stated with *)


(** A request body made of the items of a document. *)
Definition body_of (m : doc) : value := VDict (map_to_list m).

(** ** The remaining schemas and their handlers *)

Module Booking_.
Record Booking : Type := {
  name : string;
  phone : string;
  service : string;
  preferred_date : option string;
  notes : option string
}.
End Booking_.

Abbreviation Booking := Booking_.Booking.

Record FAQ : Type := {
  question : string;
  answer : string
}.

Module ContactMessage_.
Record ContactMessage : Type := {
  name : string;
  email : string;
  phone : option string;
  message : string
}.
End ContactMessage_.

Abbreviation ContactMessage := ContactMessage_.ContactMessage.

Definition Booking_validate (v : value) : validated Booking :=
  match v with
  | VDict d =>
      Valid Booking_.Build_Booking
        <*> required "name" v_str d
        <*> required "phone" v_str d
        <*> required "service" v_str d
        <*> defaulted "preferred_date" None (v_optional v_str) d
        <*> defaulted "notes" None (v_optional v_str) d
  | _ => Invalid [([], "model_type")]
  end.

Definition Booking_model_dump (b : Booking) : doc :=
  <["name" := VStr (Booking_.name b)]> (
  <["phone" := VStr (Booking_.phone b)]> (
  <["service" := VStr (Booking_.service b)]> (
  <["preferred_date" := opt_value VStr (Booking_.preferred_date b)]> (
  <["notes" := opt_value VStr (Booking_.notes b)]> ∅)))).

#[global] Instance Booking_BaseModel : BaseModel Booking := {
  model_dump := Booking_model_dump
}.

Definition FAQ_validate (v : value) : validated FAQ :=
  match v with
  | VDict d =>
      Valid Build_FAQ
        <*> required "question" v_str d
        <*> required "answer" v_str d
  | _ => Invalid [([], "model_type")]
  end.

Definition FAQ_model_dump (f : FAQ) : doc :=
  <["question" := VStr (question f)]> (
  <["answer" := VStr (answer f)]> ∅).

#[global] Instance FAQ_BaseModel : BaseModel FAQ := {
  model_dump := FAQ_model_dump
}.

Definition ContactMessage_validate `{Library} (v : value)
  : validated ContactMessage :=
  match v with
  | VDict d =>
      Valid ContactMessage_.Build_ContactMessage
        <*> required "name" v_str d
        <*> required "email" v_EmailStr d
        <*> defaulted "phone" None (v_optional v_str) d
        <*> required "message" v_str d
  | _ => Invalid [([], "model_type")]
  end.

Definition ContactMessage_model_dump (m : ContactMessage) : doc :=
  <["name" := VStr (ContactMessage_.name m)]> (
  <["email" := VStr (ContactMessage_.email m)]> (
  <["phone" := opt_value VStr (ContactMessage_.phone m)]> (
  <["message" := VStr (ContactMessage_.message m)]> ∅))).

#[global] Instance ContactMessage_BaseModel : BaseModel ContactMessage := {
  model_dump := ContactMessage_model_dump
}.


Definition create_booking (booking : Booking) : M doc :=
  new_id <- create_document "booking" booking ;;
  ret {["id" := VStr new_id]}.

(** [get_documents("faq")]: no filter and no limit. *)
Definition list_faqs `{Library} : M (list (option doc)) :=
  docs <- get_documents "faq" ∅ None ;;
  for_each (fun d => _doc_with_id (Some d)) docs.

Definition create_faq (faq : FAQ) : M doc :=
  new_id <- create_document "faq" faq ;;
  ret {["id" := VStr new_id]}.

Definition contact (msg : ContactMessage) : M doc :=
  new_id <- create_document "contactmessage" msg ;;
  ret {["id" := VStr new_id]}.

Definition POST_bookings (body : value) : M doc :=
  match Booking_validate body with
  | Valid booking => create_booking booking
  | Invalid errs => raise (RequestValidationError errs)
  end.

Definition POST_faqs (body : value) : M doc :=
  match FAQ_validate body with
  | Valid faq => create_faq faq
  | Invalid errs => raise (RequestValidationError errs)
  end.

Definition POST_contact `{Library} (body : value) : M doc :=
  match ContactMessage_validate body with
  | Valid msg => contact msg
  | Invalid errs => raise (RequestValidationError errs)
  end.

(** The required fields of the three schemas, by endpoint. *)
Definition Booking_required : list string := ["name"; "phone"; "service"].

Definition FAQ_required : list string := ["question"; "answer"].

Definition ContactMessage_required : list string :=
  ["name"; "email"; "message"].

(** ** Payments ([src/main.py]) *)

Module CreateStripeIntent_.
Record CreateStripeIntent : Type := {
  amount : Z;
  currency : string
}.
End CreateStripeIntent_.

Abbreviation CreateStripeIntent := CreateStripeIntent_.CreateStripeIntent.

Module CreatePaystackInit_.
Record CreatePaystackInit : Type := {
  email : string;
  amount : Z;
  currency : string
}.
End CreatePaystackInit_.

Abbreviation CreatePaystackInit := CreatePaystackInit_.CreatePaystackInit.

(** What [requests.post] is called with, and what it returns: [json] is
    [None] when the body of the reply is not JSON. *)
Record post_request : Type := {
  post_url : string;
  post_json : doc;
  post_headers : gmap string string;
  post_timeout : Z
}.

Record post_response : Type := {
  status_code : Z;
  text : string;
  json : option value
}.

(** The calls a payment handler makes to a provider. *)
Inductive remote_call : Type :=
  | PaymentIntent_create (api_key : string) (amount : Z) (currency : string)
      (automatic_payment_methods : doc)
  | requests_post (req : post_request).

(** What lies outside the process: its environment variables, whether
    [import stripe] and [import requests] succeed, how the two providers
    answer ([inl] is an
    exception raised by the SDK or by [requests]), and Python's
    [str.lower]. *)
Record outside : Type := {
  environ : gmap string string;
  stripe_importable : bool;
  requests_importable : bool;
  stripe_answer : string -> Z -> string -> string + string;
  requests_answer : post_request -> string + post_response;
  lower : string -> string
}.

(** An exception of the handlers' own or one of a third party, by name. *)
Inductive raised : Type :=
  | Own (e : exn)
  | Foreign (name : string).

Inductive result (A : Type) : Type :=
  | Done (a : A)
  | Failed (r : raised).
Arguments Done {A} a.
Arguments Failed {A} r.

(** [os.getenv(k)] and the truth value [if not key] tests. *)
Definition getenv (o : outside) (k : string) : option string :=
  environ o !! k.

Definition configured (key : option string) : bool :=
  match key with
  | Some k => negb (String.eqb k "")
  | None => false
  end.

Definition create_stripe_intent (o : outside) (payload : CreateStripeIntent)
  : result doc * list remote_call :=
  let stripe_key := getenv o "STRIPE_SECRET_KEY" in
  if negb (configured stripe_key) then
    (Done (<["clientSecret" := VStr "mock_client_secret"]>
             {["mock" := VBool true]}), [])
  else if negb (stripe_importable o) then
    (Failed (Own (HTTPException 500 "Stripe package not installed on server")),
     [])
  else
    let api_key := default "" stripe_key in
    (* [math.floor] of an int is the int *)
    let amount_minor := (CreateStripeIntent_.amount payload * 100)%Z in
    let currency := lower o (CreateStripeIntent_.currency payload) in
    let call := PaymentIntent_create api_key amount_minor currency
                  {["enabled" := VBool true]} in
    match stripe_answer o api_key amount_minor currency with
    | inr client_secret => (Done {["clientSecret" := VStr client_secret]}, [call])
    | inl e => (Failed (Foreign e), [call])
    end.

(** [v[k]] with a string key. *)
Definition getitem (v : value) (k : string) : result value :=
  match v with
  | VDict d =>
      match dget k d with
      | Some x => Done x
      | None => Failed (Own (KeyError k))
      end
  | _ => Failed (Foreign "TypeError")
  end.

Definition and_next {A B} (x : result A) (f : A -> result B) : result B :=
  match x with
  | Done a => f a
  | Failed r => Failed r
  end.

Definition paystack_request (key : string) (payload : CreatePaystackInit)
  : post_request :=
  {| post_url := "https://api.paystack.co/transaction/initialize";
     post_json :=
       <["email" := VStr (CreatePaystackInit_.email payload)]> (
       <["amount" := VInt (CreatePaystackInit_.amount payload * 100)]> (
       <["currency" := VStr (CreatePaystackInit_.currency payload)]> ∅));
     post_headers :=
       <["Authorization" := "Bearer " ++ key]> (
       <["Content-Type" := "application/json"]> ∅);
     post_timeout := 20 |}.

Definition create_paystack_transaction (o : outside)
    (payload : CreatePaystackInit) : result doc * list remote_call :=
  let key := getenv o "PAYSTACK_SECRET_KEY" in
  if negb (configured key) then
    (Done (<["authorization_url" := VStr "https://paystack.mock/checkout"]> (
           <["reference" := VStr "mock_ref"]> {["mock" := VBool true]})), [])
  else if negb (requests_importable o) then
    (Failed (Foreign "ModuleNotFoundError"), [])
  else
    let req := paystack_request (default "" key) payload in
    match requests_answer o req with
    | inl e => (Failed (Foreign e), [requests_post req])
    | inr r =>
        (if (400 <=? status_code r)%Z then
           Failed (Own (HTTPException (status_code r) (text r)))
         else
           match json r with
           | None => Failed (Foreign "JSONDecodeError")
           | Some j =>
               and_next (getitem j "data") (fun data =>
               and_next (getitem data "authorization_url") (fun u =>
               and_next (getitem j "data") (fun data' =>
               and_next (getitem data' "reference") (fun ref =>
               Done (<["authorization_url" := u]> {["reference" := ref]})))))
           end,
         [requests_post req])
    end.

(** ** The connectivity diagnostic ([src/main.py]) *)

(** The store handle [db] as [test_database] uses it: its [name]
    attribute, if it has one, and what [list_collection_names()] returns
    ([inr]) or the text of the exception it raises ([inl]). *)
Record handle : Type := {
  handle_name : option string;
  collection_names : string + list string
}.

(** [x or "Unknown"] on an optional string *)
Definition or_unknown (x : option string) : string :=
  match x with
  | Some s => if String.eqb s "" then "Unknown" else s
  | None => "Unknown"
  end.

(** [test_database]: [db] is [None] when no connection was set up. *)
Definition test_database (db : option handle) (o : outside) : doc :=
  let response : doc :=
    <["backend" := VStr "✅ Running"]> (
    <["database" := VStr "❌ Not Available"]> (
    <["database_url" := VNone]> (
    <["database_name" := VNone]> (
    <["connection_status" := VStr "Not Connected"]> (
    <["collections" := VList []]> ∅))))) in
  match db with
  | Some h =>
      let response := <["database" := VStr "✅ Available"]> response in
      let response :=
        <["database_url" :=
            VStr (if configured (getenv o "DATABASE_URL")
                  then "✅ Set" else "❌ Not Set")]> response in
      let response :=
        <["database_name" := VStr (or_unknown (handle_name h))]> response in
      match collection_names h with
      | inr collections =>
          let response :=
            <["collections" := VList (VStr <$> take 10 collections)]>
              response in
          let response :=
            <["database" := VStr "✅ Connected & Working"]> response in
          <["connection_status" := VStr "Connected"]> response
      | inl e =>
          <["database" :=
              VStr ("⚠️ Connected but Error: " ++ substring 0 50 e)]> response
      end
  | None =>
      <["database" := VStr "⚠️ Available but not initialized"]> response
  end.

(** ** Concrete requests and providers for the further properties *)

Definition sample_faq : list (string * value) :=
  [("question", VStr "Do you deliver?"); ("answer", VStr "Yes.")].

Definition sample_faq_valid : FAQ :=
  {| question := "Do you deliver?"; answer := "Yes." |}.

Definition sample_contact : list (string * value) :=
  [("name", VStr "Ada"); ("email", VStr "ada.example.com");
   ("message", VStr "Hello")].

Definition sample_intent : CreateStripeIntent :=
  {| CreateStripeIntent_.amount := 1000;
     CreateStripeIntent_.currency := "NGN" |}.

Definition sample_init : CreatePaystackInit :=
  {| CreatePaystackInit_.email := "ada@example.com";
     CreatePaystackInit_.amount := 1000;
     CreatePaystackInit_.currency := "NGN" |}.

Definition sample_reply : post_response :=
  {| status_code := 200;
     text := "";
     json := Some (VDict [("status", VBool true);
                          ("data", VDict [("authorization_url",
                                           VStr "https://checkout.example/abc");
                                          ("reference", VStr "ref-1")])]) |}.

(** Both credentials configured and both providers answering. *)
Definition live_outside : outside :=
  {| environ := <["STRIPE_SECRET_KEY" := "sk_test"]>
                  {["PAYSTACK_SECRET_KEY" := "ps_test"]};
     stripe_importable := true;
     requests_importable := true;
     stripe_answer := fun _ _ _ => inr "secret-1";
     requests_answer := fun _ => inr sample_reply;
     lower := str_lower |}.

(** No credential at all. *)
Definition bare_outside : outside :=
  {| environ := ∅;
     stripe_importable := false;
     requests_importable := false;
     stripe_answer := fun _ _ _ => inl "unreachable";
     requests_answer := fun _ => inl "unreachable";
     lower := str_lower |}.



(** * Properties *)

Section Properties.

Context {lib : Library}.

(** ** Identifier codec *)

Ltac bool_to_arith :=
  repeat match goal with
  | H : (_ && _) = true |- _ => apply andb_true_iff in H as [? ?]
  | H : (_ && _) = false |- _ => apply andb_false_iff in H as [? | ?]
  | H : (_ <=? _)%N = true |- _ => apply N.leb_le in H
  | H : (_ <=? _)%N = false |- _ => apply N.leb_gt in H
  | H : (_ <? _)%N = true |- _ => apply N.ltb_lt in H
  | H : (_ <? _)%N = false |- _ => apply N.ltb_ge in H
  end.

Lemma unhex_spec c h :
  unhex c = Some h -> (h < 16)%N /\ hexdigit h = ascii_lower c.
Proof.
  unfold unhex, hexdigit, ascii_lower.
  pose proof (ascii_N_embedding c) as Hc.
  set (n := N_of_ascii c) in *. clearbody n.
  destruct ((48 <=? n)%N && (n <=? 57)%N) eqn:H1;
    [|destruct ((97 <=? n)%N && (n <=? 102)%N) eqn:H2;
      [|destruct ((65 <=? n)%N && (n <=? 70)%N) eqn:H3]];
    intros [= <-];
    destruct ((65 <=? n)%N && (n <=? 90)%N) eqn:H4;
    match goal with |- _ /\ (if ?b then _ else _) = _ => destruct b eqn:H5 end;
    bool_to_arith; split; try lia; try rewrite <- Hc; f_equal; lia.
Qed.

Lemma nibbles_div h l : (l < 16)%N -> ((16 * h + l) / 16 = h)%N.
Proof.
  intros Hl. symmetry. apply (N.div_unique _ 16 h l); [done | lia].
Qed.

Lemma nibbles_mod h l : (l < 16)%N -> ((16 * h + l) mod 16 = l)%N.
Proof.
  intros Hl. symmetry. apply (N.mod_unique _ 16 h l); [done | lia].
Qed.

Lemma unhex_not_space c h : unhex c = Some h -> is_space c = false.
Proof.
  unfold unhex, is_space. set (n := N_of_ascii c). clearbody n.
  destruct ((48 <=? n)%N && (n <=? 57)%N) eqn:H1;
    [|destruct ((97 <=? n)%N && (n <=? 102)%N) eqn:H2;
      [|destruct ((65 <=? n)%N && (n <=? 70)%N) eqn:H3; [|done]]];
    intros _; bool_to_arith; apply orb_false_iff;
    (split; [apply andb_false_iff; right; apply N.leb_gt; lia
            | apply N.eqb_neq; lia]).
Qed.

Lemma is_hex_not_space c : is_hex c = true -> is_space c = false.
Proof.
  unfold is_hex. destruct (unhex c) as [h|] eqn:Hh; [|done].
  intros _. by apply (unhex_not_space c h).
Qed.

(** Induction along the way [fromhex] reads a string. *)
Lemma fromhex_ind (P : string -> Prop) :
  P EmptyString ->
  (forall c s, is_space c = true -> P s -> P (String c s)) ->
  (forall c, is_space c = false -> P (String c EmptyString)) ->
  (forall c1 c2 s, is_space c1 = false -> P s -> P (String c1 (String c2 s))) ->
  forall s, P s.
Proof.
  intros H0 Hsp H1 H2 s.
  assert (Hboth : P s /\ forall c, P (String c s)).
  { induction s as [|c2 s [IHs IHc]]; split; auto.
    - intros c. destruct (is_space c) eqn:Hc; auto.
    - intros c. destruct (is_space c) eqn:Hc; auto. }
  apply Hboth.
Qed.

(** The bytes read from a string render as the string without its
    whitespace, in lower case. *)
Lemma hexlify_fromhex s bs :
  fromhex s = Some bs -> hexlify bs = str_lower (unspaced s).
Proof.
  revert bs. induction s as [|c s Hc IH|c Hc|c1 c2 s Hc1 IH] using fromhex_ind;
    intros bs; simpl; rewrite ?Hc, ?Hc1.
  - by intros [= <-].
  - apply IH.
  - done.
  - destruct (unhex c1) as [h|] eqn:Hh; [|done].
    destruct (unhex c2) as [l|] eqn:Hl; [|done].
    rewrite (unhex_not_space c2 l Hl).
    destruct (Byte.of_N (16 * h + l)) as [b|] eqn:Hb; [|done].
    destruct (fromhex s) as [bs'|] eqn:Hr; [|done].
    intros [= <-]. simpl.
    apply Byte.to_of_N in Hb. rewrite Hb.
    apply unhex_spec in Hh as [Hh1 Hh2], Hl as [Hl1 Hl2].
    rewrite nibbles_div, nibbles_mod by done.
    rewrite Hh2, Hl2. do 2 f_equal. by apply IH.
Qed.

Lemma all_hex_unspaced s : all_hex s = true -> unspaced s = s.
Proof.
  induction s as [|c s IH]; simpl; [done|].
  intros [Hc Hs]%andb_true_iff. rewrite (is_hex_not_space c Hc).
  by rewrite IH.
Qed.

Lemma ObjectId_of_str_unspaced s o :
  ObjectId_of_str s = Some o -> ObjectId_str o = str_lower (unspaced s).
Proof.
  unfold ObjectId_of_str, ObjectId_str.
  destruct (String.length s =? 24)%nat; [apply hexlify_fromhex | done].
Qed.

Lemma ObjectId_of_str_lower s o :
  valid_id_string s = true ->
  ObjectId_of_str s = Some o -> ObjectId_str o = str_lower s.
Proof.
  intros [_ Hs]%andb_true_iff Ho%ObjectId_of_str_unspaced.
  by rewrite all_hex_unspaced in Ho.
Qed.

Lemma string_pair_ind (P : string -> Prop) :
  P EmptyString ->
  (forall c, P (String c EmptyString)) ->
  (forall c1 c2 s, P s -> P (String c1 (String c2 s))) ->
  forall s, P s.
Proof.
  intros H0 H1 H2 s.
  assert (Hboth : P s /\ forall c, P (String c s)).
  { induction s as [|c s [IHs IHc]]; split; auto. }
  apply Hboth.
Qed.

Lemma hexdigit_unhex n : (n < 16)%N -> unhex (hexdigit n) = Some n.
Proof.
  intros Hn.
  assert (Hcases : In n (0 :: 1 :: 2 :: 3 :: 4 :: 5 :: 6 :: 7 :: 8 :: 9 :: 10
                          :: 11 :: 12 :: 13 :: 14 :: 15 :: nil)%N).
  { simpl. lia. }
  simpl in Hcases.
  repeat (destruct Hcases as [<- | Hcases]; [reflexivity|]). done.
Qed.

Lemma fromhex_hexlify bs : fromhex (hexlify bs) = Some bs.
Proof.
  induction bs as [|b bs IH]; [done|]. simpl.
  pose proof (Byte.to_N_bounded b) as Hb.
  assert (Hlt : (Byte.to_N b < 256)%N) by lia.
  assert (Hhi : (Byte.to_N b / 16 < 16)%N)
    by (apply N.Div0.div_lt_upper_bound; lia).
  assert (Hlo : (Byte.to_N b mod 16 < 16)%N) by by apply N.mod_lt.
  rewrite (unhex_not_space _ _ (hexdigit_unhex _ Hhi)).
  rewrite !hexdigit_unhex by done.
  rewrite <- N.div_mod by done. by rewrite Byte.of_to_N, IH.
Qed.

Lemma hexlify_length bs : String.length (hexlify bs) = (2 * length bs)%nat.
Proof. induction bs as [|b bs IH]; simpl; [done | lia]. Qed.

(** On a string of hex digits alone, [fromhex] reads one byte for every
    two characters. *)
Lemma fromhex_length s bs :
  all_hex s = true ->
  fromhex s = Some bs -> String.length s = (2 * length bs)%nat.
Proof.
  revert bs. induction s as [|c|c1 c2 s IH] using string_pair_ind;
    intros bs; simpl.
  - by intros _ [= <-].
  - rewrite andb_true_r. intros Hc. by rewrite (is_hex_not_space c Hc).
  - intros [Hc1 [Hc2 Hs]%andb_true_iff]%andb_true_iff.
    rewrite (is_hex_not_space c1 Hc1).
    destruct (unhex c1), (unhex c2); try done.
    destruct (Byte.of_N _); [|done].
    destruct (fromhex s) as [bs'|]; [|done].
    intros [= <-]. simpl. rewrite (IH bs') by done. lia.
Qed.

Lemma all_hex_fromhex s :
  all_hex s = true -> Nat.even (String.length s) = true ->
  is_Some (fromhex s).
Proof.
  induction s as [|c|c1 c2 s IH] using string_pair_ind; simpl.
  - by eexists.
  - by rewrite andb_true_r.
  - intros [Hc1 [Hc2 Hs]%andb_true_iff]%andb_true_iff Hlen.
    rewrite (is_hex_not_space c1 Hc1). unfold is_hex in Hc1, Hc2.
    destruct (unhex c1) as [h|] eqn:Hh; [|done].
    destruct (unhex c2) as [l|] eqn:Hl; [|done].
    destruct (IH Hs Hlen) as [bs ->].
    apply unhex_spec in Hh as [Hh _], Hl as [Hl _].
    destruct (Byte.of_N (16 * h + l)) as [b|] eqn:Hb; [by eexists|].
    apply Byte.of_N_None_iff in Hb. lia.
Qed.

(** [fromhex] reads exactly the strings made of hex digit pairs and
    whitespace. *)
Lemma fromhex_hex_pairs s : is_Some (fromhex s) <-> hex_pairs s.
Proof.
  split.
  - induction s as [|c s Hc IH|c Hc|c1 c2 s Hc1 IH] using fromhex_ind;
      simpl; rewrite ?Hc, ?Hc1.
    + constructor.
    + intros Hs. by apply hex_pairs_space, IH.
    + by intros [? ?].
    + unfold is_Some.
      destruct (unhex c1) as [h|] eqn:Hh; [|by intros [? ?]].
      destruct (unhex c2) as [l|] eqn:Hl; [|by intros [? ?]].
      destruct (Byte.of_N (16 * h + l)) as [b|]; [|by intros [? ?]].
      destruct (fromhex s) as [bs|] eqn:Hs; [|by intros [? ?]].
      intros _. apply hex_pairs_byte; unfold is_hex; rewrite ?Hh, ?Hl; try done.
      apply IH. by eexists.
  - induction 1 as [|c s Hc _ IH|c1 c2 s Hc1 Hc2 _ [bs IH]]; simpl.
    + by eexists.
    + by rewrite Hc.
    + rewrite (is_hex_not_space c1 Hc1). unfold is_hex in Hc1, Hc2.
      destruct (unhex c1) as [h|] eqn:Hh; [|done].
      destruct (unhex c2) as [l|] eqn:Hl; [|done].
      rewrite IH.
      apply unhex_spec in Hh as [Hh _], Hl as [Hl _].
      destruct (Byte.of_N (16 * h + l)) as [b|] eqn:Hb; [by eexists|].
      apply Byte.of_N_None_iff in Hb. lia.
Qed.

(** The identifier constructor fails exactly on the strings that are not
    24 characters of hex digit pairs and whitespace. *)
Lemma ObjectId_of_str_None s :
  ObjectId_of_str s = None <-> String.length s <> 24%nat \/ ~ hex_pairs s.
Proof.
  unfold ObjectId_of_str.
  destruct (String.length s =? 24)%nat eqn:Hlen.
  - apply Nat.eqb_eq in Hlen. rewrite <- fromhex_hex_pairs.
    rewrite <- eq_None_not_Some. tauto.
  - apply Nat.eqb_neq in Hlen. tauto.
Qed.

(** A character that is neither a hex digit nor whitespace makes a string
    one that [fromhex] does not read. *)
Lemma foreign_char_not_hex_pairs s1 c s2 :
  is_hex c = false -> is_space c = false ->
  ~ hex_pairs (s1 ++ String c s2).
Proof.
  intros Hhex Hsp.
  assert (Hgen : forall s, hex_pairs s ->
            forall s1, s <> s1 ++ String c s2).
  { induction 1 as [|c0 s Hc0 _ IH|c1 c2 s Hc1 Hc2 _ IH]; intros t Heq;
      unfold String.app in *.
    - by destruct t.
    - destruct t as [|c' t]; simpl in Heq; injection Heq as -> Heq.
      + congruence.
      + by apply (IH t).
    - destruct t as [|c' [|c'' t]]; simpl in Heq.
      + injection Heq as -> _. congruence.
      + injection Heq as _ -> _. congruence.
      + injection Heq as _ _ Heq. by apply (IH t). }
  intros Hp. by apply (Hgen _ Hp s1).
Qed.

Lemma ObjectId_of_str_Some s :
  valid_id_string s = true -> is_Some (ObjectId_of_str s).
Proof.
  unfold valid_id_string, ObjectId_of_str.
  intros [Hlen Hs]%andb_true_iff. rewrite Hlen.
  apply Nat.eqb_eq in Hlen. apply all_hex_fromhex; [done|]. by rewrite Hlen.
Qed.

(** The identifier decoded from 24 hex digits has 12 bytes. *)
Lemma ObjectId_of_str_length s o :
  valid_id_string s = true ->
  ObjectId_of_str s = Some o -> length o = 12%nat.
Proof.
  unfold valid_id_string, ObjectId_of_str.
  intros [Hlen Hs]%andb_true_iff. rewrite Hlen.
  apply Nat.eqb_eq in Hlen. intros Ho%fromhex_length; [lia | done].
Qed.

(** Decoding the rendering of a 12-byte identifier gives it back. *)
Lemma ObjectId_of_str_str o :
  length o = 12%nat -> ObjectId_of_str (ObjectId_str o) = Some o.
Proof.
  intros Hlen. unfold ObjectId_of_str, ObjectId_str.
  rewrite hexlify_length, Hlen. simpl. apply fromhex_hexlify.
Qed.

(** C1 (amended): for every valid 24-hex-character identifier string [s],
    encoding the result of decoding [s] yields [s] with its letters in
    lower case; it yields [s] itself when [s] has no upper-case letter. *)
Theorem roundtrip_lower s :
  valid_id_string s = true ->
  roundtrip s = Some (str_lower s) /\
  (str_lower s = s -> roundtrip s = Some s).
Proof.
  intros Hs. unfold roundtrip.
  destruct (ObjectId_of_str_Some s Hs) as [o Ho]. rewrite Ho. simpl.
  rewrite (ObjectId_of_str_lower s o Hs Ho). split; [done | by intros ->].
Qed.

(** Two spellings of one identifier decode to the same bytes, so no
    rendering of the native identifier gives every valid string back. *)
Lemma roundtrip_needs_one_case (encode : ObjectId -> string) :
  ~ (forall s, valid_id_string s = true ->
               encode <$> ObjectId_of_str s = Some s).
Proof.
  intros Hall.
  pose proof (Hall "65a1b2c3d4e5f60718293a4b" eq_refl) as Hlo.
  pose proof (Hall "65A1B2C3D4E5F60718293A4B" eq_refl) as Hup.
  vm_compute in Hlo, Hup. congruence.
Qed.

(** ** Document store *)

Lemma matches_id o d :
  matches {["_id" := VOid o]} d <-> d !! "_id" = Some (VOid o).
Proof.
  unfold matches.
  exact (map_Forall_singleton (fun k v => d !! k = Some v) "_id" (VOid o)).
Qed.

Lemma coll_find_none q c :
  Forall (fun d => ~ matches q d) c -> filter (matches q) c = [].
Proof.
  induction 1 as [|x c Hx _ IH]; [done|]. by rewrite filter_cons_False.
Qed.

Lemma coll_find_one_None q c :
  Forall (fun d => ~ matches q d) c -> coll_find_one q c = None.
Proof.
  unfold coll_find_one, coll_find.
  induction 1 as [|d c Hd _ IH]; [done|]. by rewrite filter_cons_False.
Qed.


Lemma coll_delete_one_None q c :
  Forall (fun d => ~ matches q d) c -> coll_delete_one q c = (c, 0%Z).
Proof.
  induction 1 as [|d c Hd _ IH]; simpl; [done|].
  rewrite decide_False by done. by rewrite IH.
Qed.

Lemma absent_no_match o c :
  absent o c -> Forall (fun d => ~ matches {["_id" := VOid o]} d) c.
Proof.
  unfold absent. intros Ha. eapply Forall_impl; [exact Ha|].
  intros d Hd Hm. by apply matches_id in Hm.
Qed.

(** Deleting takes the first match away and leaves the other matches. *)
Lemma coll_delete_one_find q c :
  coll_find q (coll_delete_one q c).1 = tail (coll_find q c) /\
  (coll_delete_one q c).2 = (if coll_find q c is [] then 0 else 1)%Z.
Proof.
  unfold coll_find. induction c as [|d c [IH1 IH2]]; simpl; [done|].
  destruct (decide (matches q d)) as [Hd|Hd]; simpl.
  - by rewrite filter_cons_True.
  - destruct (coll_delete_one q c) as [c' n]. simpl in *.
    by rewrite !filter_cons_False.
Qed.

Lemma coll_find_nil q c :
  coll_find q c = [] -> Forall (fun d => ~ matches q d) c.
Proof.
  intros Hnil. apply Forall_forall. intros d Hd Hm.
  by apply (filter_nil_not_elem_of _ _ d Hnil).
Qed.

Lemma stored_collection w call name docs :
  collection (stored w call name docs) name = docs.
Proof. unfold collection, stored. simpl. by rewrite lookup_insert_eq. Qed.

(** *** What the driver encodes *)

Lemma encodable_opt_str o : encodable (opt_value VStr o) = true.
Proof. by destruct o. Qed.

Lemma encodable_strs (l : list string) : encodable (VList (VStr <$> l)) = true.
Proof. simpl. induction l as [|x l IH]; [done | exact IH]. Qed.

Ltac encodable_fields :=
  unfold encodable_doc;
  repeat (apply map_Forall_insert_2;
          [first [ reflexivity | apply encodable_opt_str
                 | apply encodable_strs | by destruct_and? ]|]);
  try apply map_Forall_empty.

(** A product is encodable exactly when it has no image: the dump of an
    image holds a URL object. *)
Lemma Product_encodable p :
  encodable_doc (Product_model_dump p) <-> images p = [].
Proof.
  split.
  - intros Henc.
    assert (Himg : encodable (VList (ProductImage_model_dump <$> images p))
                   = true).
    { apply (Henc "images"). unfold Product_model_dump. by simplify_map_eq. }
    by destruct (images p).
  - intros Himg. unfold Product_model_dump. rewrite Himg. encodable_fields.
Qed.

Lemma Order_encodable o : encodable_doc (Order_model_dump o).
Proof.
  unfold Order_model_dump. unfold encodable_doc.
  apply map_Forall_insert_2.
  { simpl. induction (items o) as [|i l IH]; [done | exact IH]. }
  apply map_Forall_insert_2; [done|].
  apply map_Forall_insert_2; [done|].
  apply map_Forall_insert_2; [done|].
  apply map_Forall_insert_2; [apply encodable_opt_str|].
  apply map_Forall_insert_2; [done|].
  apply map_Forall_insert_2; [done|].
  apply map_Forall_insert_2.
  { simpl. by rewrite !encodable_opt_str. }
  apply map_Forall_insert_2; [done|].
  apply map_Forall_insert_2; [by destruct (created_at o)|].
  apply map_Forall_empty.
Qed.


Lemma FAQ_encodable f : encodable_doc (FAQ_model_dump f).
Proof. unfold FAQ_model_dump. encodable_fields. Qed.

Lemma ContactMessage_encodable m : encodable_doc (ContactMessage_model_dump m).
Proof. unfold ContactMessage_model_dump. encodable_fields. Qed.

Lemma update_one_encodable name q data w :
  encodable_doc data ->
  update_one name q data w
  = (Return (coll_update_one q data (collection w name)).2,
     stored w (Call_update_one name q data) name
       (coll_update_one q data (collection w name)).1).
Proof.
  intros Henc. unfold update_one. rewrite decide_True by done.
  by destruct (coll_update_one q data (collection w name)).
Qed.

Lemma update_one_unencodable name q data w :
  ~ encodable_doc data ->
  update_one name q data w
  = (Raise InvalidDocument, logged w (Call_update_one name q data)).
Proof. intros Henc. unfold update_one. by rewrite decide_False. Qed.

Lemma insert_one_encodable name d w :
  encodable_doc d ->
  insert_one name d w
  = (Return (oid_gen w (oid_count w)),
     {| colls := <[name := coll_insert_one (oid_gen w (oid_count w)) d
                             (collection w name)]> (colls w);
        calls := Call_insert_one name d :: calls w;
        oid_gen := oid_gen w;
        oid_count := S (oid_count w) |}).
Proof. intros Henc. unfold insert_one. by rewrite decide_True. Qed.

Lemma insert_one_unencodable name d w :
  ~ encodable_doc d ->
  insert_one name d w
  = (Raise InvalidDocument,
     {| colls := colls w;
        calls := Call_insert_one name d :: calls w;
        oid_gen := oid_gen w;
        oid_count := S (oid_count w) |}).
Proof. intros Henc. unfold insert_one. by rewrite decide_False. Qed.

Lemma collection_after_insert name d w :
  encodable_doc d ->
  collection (insert_one name d w).2 name
  = coll_insert_one (oid_gen w (oid_count w)) d (collection w name).
Proof.
  intros Henc. rewrite insert_one_encodable by done.
  unfold collection at 1. simpl. by rewrite lookup_insert_eq.
Qed.

Lemma collection_after_insert_ne name d w name' :
  name' <> name ->
  collection (insert_one name d w).2 name' = collection w name'.
Proof.
  intros Hne. unfold insert_one, collection.
  destruct (decide (encodable_doc d)); simpl; [|done].
  by rewrite lookup_insert_ne.
Qed.

(** A record the driver can encode is inserted and its identifier
    returned. *)
Lemma create_document_run {A} `{BaseModel A} name (data : A) w :
  encodable_doc (model_dump data) ->
  create_document name data w
  = (Return (ObjectId_str (oid_gen w (oid_count w))),
     (insert_one name (model_dump data) w).2).
Proof.
  intros Henc. unfold create_document, bind.
  by rewrite insert_one_encodable.
Qed.

Lemma bind_ret_world {A B} (m : M A) (f : A -> B) w :
  ((x <- m ;; ret (f x)) w).2 = (m w).2.
Proof. unfold bind. by destruct (m w) as [[a|e] w']. Qed.

(** Whether it returns or raises, [create_document] leaves the store as
    [insert_one] leaves it. *)
Lemma create_document_world {A} `{BaseModel A} name (data : A) w :
  (create_document name data w).2 = (insert_one name (model_dump data) w).2.
Proof. unfold create_document. apply bind_ret_world. Qed.

Lemma create_product_world (product : Product) w :
  (create_product product w).2
  = (insert_one "product" (Product_model_dump product) w).2.
Proof.
  unfold create_product. rewrite bind_ret_world.
  exact (create_document_world "product" product w).
Qed.

Lemma create_product_run (product : Product) w :
  images product = [] ->
  create_product product w
  = (Return {["id" := VStr (ObjectId_str (oid_gen w (oid_count w)))]},
     (insert_one "product" (Product_model_dump product) w).2).
Proof.
  intros Himg%Product_encodable. unfold create_product, bind.
  by rewrite (@create_document_run Product Product_BaseModel "product"
                product w Himg).
Qed.

(** A creation that returns is the creation of a product without
    images, and it returns the new identifier. *)
Lemma create_product_returns (product : Product) r w :
  (create_product product w).1 = Return r ->
  images product = [] /\
  r = {["id" := VStr (ObjectId_str (oid_gen w (oid_count w)))]}.
Proof.
  intros Hret. destruct (decide (images product = [])) as [Himg|Himg].
  - split; [done|]. rewrite (create_product_run product w Himg) in Hret.
    by injection Hret as <-.
  - unfold create_product, create_document, bind in Hret.
    cbn [model_dump Product_BaseModel] in Hret.
    rewrite insert_one_unencodable in Hret; [done|].
    by rewrite Product_encodable.
Qed.

Lemma create_order_world (order : Order) w :
  (create_order order w).2
  = (insert_one "order" (Order_model_dump order) w).2.
Proof.
  unfold create_order. rewrite bind_ret_world.
  exact (create_document_world "order" order w).
Qed.

(** What [update_product] does once the identifier is decoded: with an
    image in the payload the driver raises, whatever is stored. *)
Lemma update_product_run s o (product : Product) w c' n :
  ObjectId_of_str s = Some o ->
  images product = [] ->
  coll_update_one {["_id" := VOid o]} (Product_model_dump product)
    (collection w "product") = (c', n) ->
  update_product s product w
  = (if (n =? 0)%Z then Raise (HTTPException 404 "Product not found")
     else Return (<["id" := VStr s]> {["updated" := VBool true]}),
     stored w (Call_update_one "product" {["_id" := VOid o]}
                 (Product_model_dump product)) "product" c').
Proof.
  intros Ho Himg%Product_encodable Hupd.
  unfold update_product, bind, _oid. rewrite Ho.
  unfold ret. cbn [model_dump Product_BaseModel].
  rewrite update_one_encodable by done.
  rewrite Hupd. cbn [fst snd]. by destruct (n =? 0)%Z.
Qed.

Lemma update_product_unencodable s o (product : Product) w :
  ObjectId_of_str s = Some o ->
  images product <> [] ->
  update_product s product w
  = (Raise InvalidDocument,
     logged w (Call_update_one "product" {["_id" := VOid o]}
                 (Product_model_dump product))).
Proof.
  intros Ho Himg. unfold update_product, bind, _oid. rewrite Ho.
  unfold ret. cbn [model_dump Product_BaseModel].
  rewrite update_one_unencodable; [done|]. by rewrite Product_encodable.
Qed.

Lemma collection_logged w call name :
  collection (logged w call) name = collection w name.
Proof. done. Qed.


(** ** Handlers *)

(** C3 (amended): for every identifier string that the decode rejects,
    one that is not 24 characters long or that is not made of hex digit
    pairs and ASCII whitespace, [get_product], [update_product] and
    [delete_product] raise the 400 of the identifier decode, and the
    store is left as it was: no operation is invoked on it. *)
Theorem malformed_id_rejected s (product : Product) w :
  String.length s <> 24%nat \/ ~ hex_pairs s ->
  get_product s w = (Raise (HTTPException 400 "Invalid id"), w) /\
  update_product s product w = (Raise (HTTPException 400 "Invalid id"), w) /\
  delete_product s w = (Raise (HTTPException 400 "Invalid id"), w).
Proof.
  intros Hs%ObjectId_of_str_None.
  unfold get_product, update_product, delete_product, bind, _oid.
  by rewrite Hs.
Qed.


(** C6: for every identifier of a stored product, a first
    [delete_product] returns [{"deleted": True}] (deleted count 1) and a
    second one raises the 404 (deleted count 0). *)
Theorem delete_twice s o d w :
  ObjectId_of_str s = Some o ->
  d ∈ collection w "product" ->
  d !! "_id" = Some (VOid o) ->
  unique_ids (collection w "product") ->
  exists w1 w2,
    delete_product s w = (Return {["deleted" := VBool true]}, w1) /\
    delete_product s w1
      = (Raise (HTTPException 404 "Product not found"), w2).
Proof.
  intros Ho Hd Hid Huniq.
  pose proof (coll_delete_one_find {["_id" := VOid o]}
                (collection w "product")) as [Hrest Hcount].
  assert (Hin : d ∈ coll_find {["_id" := VOid o]} (collection w "product")).
  { apply list_elem_of_filter. split; [by apply matches_id | done]. }
  specialize (Huniq o).
  destruct (coll_find {["_id" := VOid o]} (collection w "product"))
    as [|d1 [|d2 ds]] eqn:Hfind; [by apply elem_of_nil in Hin| |simpl in *; lia].
  simpl in Hrest. apply coll_find_nil in Hrest.
  unfold delete_product, bind, _oid. rewrite Ho.
  unfold ret, delete_one.
  destruct (coll_delete_one {["_id" := VOid o]} (collection w "product"))
    as [c1 n1] eqn:Hdel.
  simpl in Hcount, Hrest. subst n1. simpl.
  eexists _, _. split; [reflexivity|].
  rewrite stored_collection, coll_delete_one_None by done. reflexivity.
Qed.

Lemma falsy_has_id (d : doc) : is_Some (d !! "_id") -> falsy (Some d) = false.
Proof.
  intros [v Hv]. simpl. apply bool_decide_eq_false. intros ->.
  by rewrite lookup_empty in Hv.
Qed.

Lemma _doc_with_id_shaped d w :
  is_Some (d !! "_id") -> _doc_with_id (Some d) w = (Return (shaped d), w).
Proof.
  intros Hid. unfold _doc_with_id, shaped. rewrite falsy_has_id by done.
  by destruct Hid as [v ->].
Qed.

Lemma for_each_shaped c w :
  has_ids c ->
  for_each (fun i => _doc_with_id (Some i)) c w = (Return (shaped <$> c), w).
Proof.
  induction 1 as [|d c Hd _ IH]; simpl; [done|].
  unfold bind. by rewrite _doc_with_id_shaped, IH.
Qed.

Lemma has_ids_find q c : has_ids c -> has_ids (coll_find q c).
Proof.
  unfold has_ids, coll_find. rewrite !Forall_forall.
  intros Hc d [_ Hd]%list_elem_of_filter. by apply Hc.
Qed.

(** A listing is one [find], shaped document by document. *)
Lemma get_documents_shaped q w :
  has_ids (collection w "product") ->
  (items <- get_documents "product" q None ;;
   for_each (fun i => _doc_with_id (Some i)) items) w
  = (Return (shaped <$> coll_find q (collection w "product")),
     logged w (Call_find "product" q)).
Proof.
  intros Hids. unfold bind at 1. unfold get_documents, bind, find, ret.
  by rewrite for_each_shaped by by apply has_ids_find.
Qed.

Lemma matches_insert_fresh k v (q d : doc) :
  q !! k = None ->
  matches (<[k := v]> q) d <-> d !! k = Some v /\ matches q d.
Proof.
  intros Hk. unfold matches.
  exact (map_Forall_insert (fun k v => d !! k = Some v) q k v Hk).
Qed.

Lemma matches_empty (d : doc) : matches ∅ d.
Proof. unfold matches. apply map_Forall_empty. Qed.

Lemma shaped_lookup d r k :
  shaped d = Some r -> k <> "id" -> k <> "_id" -> r !! k = d !! k.
Proof.
  unfold shaped. destruct (d !! "_id"); [|done]. intros [= <-] H1 H2.
  by rewrite lookup_insert_ne, lookup_delete_ne.
Qed.

(** C4 (amended): [list_products] with a non-empty category [c] returns
    only documents whose category equals [c]; with a featured flag
    supplied as well, the result is exactly the stored products that
    satisfy both equalities, in the store's order. *)
Theorem list_products_selected c f w :
  c <> "" ->
  has_ids (collection w "product") ->
  let found := filter (selected c f) (collection w "product") in
  (list_products (Some c) f w).1 = Return (shaped <$> found) /\
  Forall (fun r => exists d, r = Some d /\ d !! "category" = Some (VStr c) /\
                   forall b, f = Some b -> d !! "featured" = Some (VBool b))
         (shaped <$> found).
Proof.
  intros Hc Hids found. split.
  - unfold list_products. apply String.eqb_neq in Hc. rewrite Hc.
    rewrite get_documents_shaped by done. simpl. do 2 f_equal.
    unfold found, coll_find. apply list_filter_iff. intros d.
    unfold selected. destruct f as [b|].
    + rewrite matches_insert_fresh by done.
      rewrite matches_insert_fresh by done.
      pose proof (matches_empty d). tauto.
    + rewrite matches_insert_fresh by done.
      pose proof (matches_empty d). tauto.
  - apply Forall_fmap, Forall_forall. intros d [[Hcat Hf] Hd]%list_elem_of_filter.
    unfold has_ids in Hids. rewrite Forall_forall in Hids.
    destruct (Hids d Hd) as [v Hv]. simpl.
    destruct (shaped d) as [r|] eqn:Hr; [|by unfold shaped in Hr; rewrite Hv in Hr].
    exists r. split; [done|]. split.
    + by rewrite (shaped_lookup d r "category" Hr).
    + intros b ->. by rewrite (shaped_lookup d r "featured" Hr).
Qed.

(** C10: in [list_products] an empty category is treated as absent (no
    category filter: the products of every category come back), whereas
    a featured flag of [False] is applied as an equality filter (only
    products whose flag is [False] come back). *)
Theorem list_products_falsy f w :
  has_ids (collection w "product") ->
  list_products (Some "") f w = list_products None f w /\
  (list_products (Some "") None w).1
    = Return (shaped <$> collection w "product") /\
  (list_products (Some "") (Some false) w).1
    = Return (shaped <$>
        filter (fun d => d !! "featured" = Some (VBool false))
               (collection w "product")).
Proof.
  intros Hids. split; [done|]. unfold list_products. simpl.
  rewrite !get_documents_shaped by done. simpl. split; do 2 f_equal.
  - unfold coll_find. induction (collection w "product") as [|d c IH];
      [done|]. rewrite filter_cons_True by apply matches_empty.
    f_equal. inversion Hids. by apply IH.
  - unfold coll_find. apply list_filter_iff. intros d.
    rewrite matches_insert_fresh by done.
    pose proof (matches_empty d). tauto.
Qed.

(** ** Validation *)

Lemma errors_of_ap {A B} (f : validated (A -> B)) (x : validated A) :
  errors_of (f <*> x) = (errors_of f ++ errors_of x)%list.
Proof. destruct f, x; simpl; by rewrite ?app_nil_r. Qed.


Lemma errors_of_Invalid {A} (x : validated A) e :
  e ∈ errors_of x -> exists es, x = Invalid es /\ e ∈ es.
Proof.
  destruct x as [a|es]; simpl; [by intros ?%elem_of_nil | by exists es].
Qed.

Lemma ap_Valid_inv {A B} (f : validated (A -> B)) (x : validated A) b :
  f <*> x = Valid b -> exists g a, f = Valid g /\ x = Valid a /\ b = g a.
Proof. destruct f, x; simpl; [|done..]. intros [= <-]. by eexists _, _. Qed.

Lemma at_loc_Valid_inv {A} i (x : validated A) a :
  at_loc i x = Valid a -> x = Valid a.
Proof. by destruct x. Qed.

Lemma required_Some {A} k (f : value -> validated A) d v :
  dget k d = Some v -> required k f d = at_loc (LKey k) (f v).
Proof. unfold required. by intros ->. Qed.

Lemma required_None {A} k (f : value -> validated A) d :
  dget k d = None -> required k f d = Invalid [([LKey k], "missing")].
Proof. unfold required. by intros ->. Qed.

Lemma defaulted_Some {A} k dflt (f : value -> validated A) d v :
  dget k d = Some v -> defaulted k dflt f d = at_loc (LKey k) (f v).
Proof. unfold defaulted. by intros ->. Qed.







Lemma v_str_inv v s : v_str v = Valid s -> v = VStr s.
Proof. destruct v; simpl; try done. by intros [= ->]. Qed.




(** A valid product has every field valid. *)
Lemma Product_validate_inv d p :
  Product_validate (VDict d) = Valid p ->
  required "title" v_str d = Valid (title p) /\
  defaulted "description" None (v_optional v_str) d = Valid (description p) /\
  required "price" (fun x => and_then (v_float x) ge_0) d = Valid (price p) /\
  required "category" v_str d = Valid (category p) /\
  defaulted "subcategory" None (v_optional v_str) d = Valid (subcategory p) /\
  defaulted "images" [] (v_list ProductImage_validate) d = Valid (images p) /\
  defaulted "in_stock" true v_bool d = Valid (in_stock p) /\
  defaulted "featured" false v_bool d = Valid (featured p) /\
  defaulted "tags" [] (v_list v_str) d = Valid (tags p).
Proof.
  unfold Product_validate. intros H.
  repeat (apply ap_Valid_inv in H as (? & ? & H & ? & ->)).
  injection H as <-. simpl. by repeat split.
Qed.

Lemma Product_model_dump_id p : Product_model_dump p !! "_id" = None.
Proof. unfold Product_model_dump. by simplify_map_eq. Qed.

(** [model_dump] writes the nine fields of the schema and nothing else. *)
Lemma Product_model_dump_fields p k :
  k ∈ Product_fields <-> is_Some (Product_model_dump p !! k).
Proof.
  rewrite <- elem_of_dom. unfold Product_model_dump.
  rewrite !dom_insert_L, dom_empty_L.
  unfold Product_fields, Product_plain_fields.
  rewrite !elem_of_union, !elem_of_singleton, !elem_of_cons, elem_of_nil.
  rewrite elem_of_empty. tauto.
Qed.








(** A product with an image is not created: the driver raises on the URL
    object and the collections stay as they were. *)
Lemma create_product_unencodable (product : Product) w :
  images product <> [] ->
  (create_product product w).1 = Raise InvalidDocument /\
  colls (create_product product w).2 = colls w.
Proof.
  intros Himg. unfold create_product, create_document, bind.
  cbn [model_dump Product_BaseModel].
  rewrite insert_one_unencodable; [done|]. by rewrite Product_encodable.
Qed.


Lemma coll_find_one_app q c1 d c2 :
  Forall (fun x => ~ matches q x) c1 -> matches q d ->
  coll_find_one q (c1 ++ d :: c2) = Some d.
Proof.
  intros Hc1 Hd. unfold coll_find_one, coll_find.
  induction Hc1 as [|x c1 Hx _ IH]; simpl.
  - by rewrite filter_cons_True.
  - by rewrite filter_cons_False.
Qed.

(** [update_one] rewrites the document [find_one] returns, in place. *)
Lemma coll_update_one_found q data c d :
  coll_find_one q c = Some d ->
  exists c1 c2,
    c = (c1 ++ d :: c2)%list /\
    Forall (fun x => ~ matches q x) c1 /\
    matches q d /\
    coll_update_one q data c = ((c1 ++ (data ∪ d) :: c2)%list, 1%Z).
Proof.
  unfold coll_find_one, coll_find.
  induction c as [|x c IH]; simpl; [done|].
  destruct (decide (matches q x)) as [Hx|Hx].
  - rewrite filter_cons_True by done. intros [= ->].
    by exists [], c.
  - rewrite filter_cons_False by done. intros Hd.
    destruct (IH Hd) as (c1 & c2 & -> & Hc1 & Hm & ->).
    exists (x :: c1), c2. repeat split; try done. by constructor.
Qed.


(** ** Orders *)

Lemma dget_dset_eq k v d : dget k (dset k v d) = Some v.
Proof.
  induction d as [|[k' v'] d IH]; simpl.
  - by rewrite String.eqb_refl.
  - destruct (String.eqb k k') eqn:Hk; simpl; rewrite Hk; [done | exact IH].
Qed.

Lemma dget_dset_ne k k' v d : k' <> k -> dget k' (dset k v d) = dget k' d.
Proof.
  intros Hne. induction d as [|[k0 v0] d IH]; simpl.
  - by apply String.eqb_neq in Hne as ->.
  - destruct (String.eqb k k0) eqn:Hk; simpl.
    + apply String.eqb_eq in Hk as <-. by apply String.eqb_neq in Hne as ->.
    + by rewrite IH.
Qed.

Lemma required_dset_eq {A} k (f : value -> validated A) v d :
  required k f (dset k v d) = at_loc (LKey k) (f v).
Proof. unfold required. by rewrite dget_dset_eq. Qed.

Lemma required_dset_ne {A} k k' (f : value -> validated A) v d :
  k' <> k -> required k' f (dset k v d) = required k' f d.
Proof. intros Hne. unfold required. by rewrite dget_dset_ne. Qed.

Lemma defaulted_dset_eq {A} k dflt (f : value -> validated A) v d :
  defaulted k dflt f (dset k v d) = at_loc (LKey k) (f v).
Proof. unfold defaulted. by rewrite dget_dset_eq. Qed.

Lemma defaulted_dset_ne {A} k k' dflt (f : value -> validated A) v d :
  k' <> k -> defaulted k' dflt f (dset k v d) = defaulted k' dflt f d.
Proof. intros Hne. unfold defaulted. by rewrite dget_dset_ne. Qed.

(** A valid order has every field valid. *)
Lemma Order_validate_inv d o :
  Order_validate (VDict d) = Valid o ->
  required "items" (v_list CartItem_validate) d = Valid (items o) /\
  required "amount" (fun x => and_then (v_float x) ge_0) d
    = Valid (amount o) /\
  defaulted "currency" "NGN" v_str d = Valid (currency o) /\
  required "payment_provider" v_str d = Valid (payment_provider o) /\
  defaulted "payment_id" None (v_optional v_str) d = Valid (payment_id o) /\
  defaulted "status" "pending" v_str d = Valid (status o) /\
  required "customer" OrderCustomer_validate d = Valid (customer o) /\
  required "address" OrderAddress_validate d = Valid (address o) /\
  defaulted "delivery_option" "standard" v_str d
    = Valid (delivery_option o) /\
  defaulted "created_at" None (v_optional v_datetime) d
    = Valid (created_at o).
Proof.
  unfold Order_validate. intros H.
  repeat (apply ap_Valid_inv in H as (? & ? & H & ? & ->)).
  injection H as <-. simpl. by repeat split.
Qed.

Ltac other_fields_kept :=
  rewrite ?required_dset_eq, ?defaulted_dset_eq;
  rewrite ?required_dset_ne, ?defaulted_dset_ne by done.

(** The order schema checks neither that [items] is non-empty nor what
    [status] and [payment_provider] spell. *)
Lemma Order_validate_unchecked d o s :
  Order_validate (VDict d) = Valid o ->
  Order_validate (VDict (dset "items" (VList []) d))
    = Valid (with_items o []) /\
  Order_validate (VDict (dset "status" (VStr s) d))
    = Valid (with_status o s) /\
  Order_validate (VDict (dset "payment_provider" (VStr s) d))
    = Valid (with_payment_provider o s).
Proof.
  intros (Hitems & Hamount & Hcur & Hprov & Hpid & Hstatus & Hcust & Haddr
          & Hdeliv & Hcreated)%Order_validate_inv.
  unfold Order_validate. repeat split; other_fields_kept;
    rewrite ?Hitems, ?Hamount, ?Hcur, ?Hprov, ?Hpid, ?Hstatus, ?Hcust,
            ?Haddr, ?Hdeliv, ?Hcreated; reflexivity.
Qed.

Lemma create_order_persists (order : Order) w :
  let oid := oid_gen w (oid_count w) in
  exists w',
    create_order order w = (Return {["id" := VStr (ObjectId_str oid)]}, w') /\
    collection w' "order"
    = (collection w "order" ++ [<["_id" := VOid oid]> (Order_model_dump order)])
      %list.
Proof.
  intros oid. exists (insert_one "order" (Order_model_dump order) w).2. split.
  - unfold create_order, bind.
    by rewrite create_document_run by apply Order_encodable.
  - by rewrite collection_after_insert by apply Order_encodable.
Qed.

(** C9: [POST /orders] accepts an order whose items list is empty, and an
    order whose status or payment provider is any string at all, the
    other fields being valid: the order is stored and its identifier
    returned. *)
Theorem order_unchecked_fields_accepted d o s w :
  Order_validate (VDict d) = Valid o ->
  let oid := oid_gen w (oid_count w) in
  let accepted (body : value) (order : Order) :=
    exists w',
      POST_orders body w = (Return {["id" := VStr (ObjectId_str oid)]}, w') /\
      collection w' "order"
      = (collection w "order"
         ++ [<["_id" := VOid oid]> (Order_model_dump order)])%list in
  accepted (VDict (dset "items" (VList []) d)) (with_items o []) /\
  accepted (VDict (dset "status" (VStr s) d)) (with_status o s) /\
  accepted (VDict (dset "payment_provider" (VStr s) d))
           (with_payment_provider o s).
Proof.
  intros (Hitems & Hstatus & Hprov)%(Order_validate_unchecked d o s).
  intros oid accepted. unfold accepted, POST_orders.
  rewrite Hitems, Hstatus, Hprov.
  repeat split; apply create_order_persists.
Qed.

(** ** The store invariant *)

Lemma world_ok_has_ids N w name :
  world_ok N w -> has_ids (collection w name).
Proof.
  intros Hok. apply Forall_forall. intros d Hd.
  destruct (ok_handed_out N w Hok name d Hd) as (n & _ & ->). by eexists.
Qed.

(** The identifier the generator hands out next is in no collection. *)
Lemma world_ok_next_absent N w name :
  world_ok N w -> (oid_count w < N)%nat ->
  absent (oid_gen w (oid_count w)) (collection w name).
Proof.
  intros Hok Hroom. apply Forall_forall. intros d Hd.
  destruct (ok_handed_out N w Hok name d Hd) as (n & Hn & ->).
  intros [= Heq]. apply (ok_distinct N w Hok) in Heq; lia.
Qed.

Lemma collection_stored_ne w call name docs name' :
  name' <> name -> collection (stored w call name docs) name' = collection w name'.
Proof. intros Hne. unfold collection, stored. simpl. by rewrite lookup_insert_ne. Qed.

Lemma coll_update_one_elem q data c x :
  x ∈ (coll_update_one q data c).1 ->
  x ∈ c \/ exists d, d ∈ c /\ x = data ∪ d.
Proof.
  induction c as [|d c IH]; simpl; [by left|].
  destruct (decide (matches q d)) as [Hq|Hq]; simpl.
  - intros [-> | Hx]%elem_of_cons.
    + right. exists d. split; [apply list_elem_of_here | done].
    + left. by apply list_elem_of_further.
  - destruct (coll_update_one q data c) as [c' n]. simpl in *.
    intros [-> | Hx]%elem_of_cons; [left; apply list_elem_of_here|].
    destruct (IH Hx) as [Hc | (d' & Hd' & ->)].
    + left. by apply list_elem_of_further.
    + right. exists d'. split; [by apply list_elem_of_further | done].
Qed.

Lemma coll_delete_one_elem q c x : x ∈ (coll_delete_one q c).1 -> x ∈ c.
Proof.
  induction c as [|d c IH]; simpl; [done|].
  destruct (decide (matches q d)) as [Hq|Hq]; simpl.
  - apply list_elem_of_further.
  - destruct (coll_delete_one q c) as [c' n]. simpl in *.
    intros [-> | Hx]%elem_of_cons; [apply list_elem_of_here|].
    by apply list_elem_of_further, IH.
Qed.

Lemma coll_update_one_lookups q data c o :
  data !! "_id" = None ->
  length (coll_find {["_id" := VOid o]} (coll_update_one q data c).1)
  = length (coll_find {["_id" := VOid o]} c).
Proof.
  intros Hdata. unfold coll_find. induction c as [|d c IH]; simpl; [done|].
  assert (Hsame : matches {["_id" := VOid o]} (data ∪ d)
                  <-> matches {["_id" := VOid o]} d).
  { rewrite !matches_id. by rewrite lookup_union_r. }
  destruct (decide (matches q d)) as [Hq|Hq]; simpl.
  - destruct (decide (matches {["_id" := VOid o]} d)) as [Hd|Hd].
    + rewrite !filter_cons_True by tauto. done.
    + rewrite !filter_cons_False by tauto. done.
  - destruct (coll_update_one q data c) as [c' n]. simpl in *.
    destruct (decide (matches {["_id" := VOid o]} d)) as [Hd|Hd].
    + rewrite !filter_cons_True by done. simpl. by rewrite IH.
    + by rewrite !filter_cons_False.
Qed.

Lemma coll_delete_one_lookups q c o :
  (length (coll_find {["_id" := VOid o]} (coll_delete_one q c).1)
   <= length (coll_find {["_id" := VOid o]} c))%nat.
Proof.
  unfold coll_find. induction c as [|d c IH]; simpl; [done|].
  destruct (decide (matches q d)) as [Hq|Hq]; simpl.
  - destruct (decide (matches {["_id" := VOid o]} d)) as [Hd|Hd].
    + rewrite filter_cons_True by done. simpl. lia.
    + by rewrite filter_cons_False.
  - destruct (coll_delete_one q c) as [c' n]. simpl in *.
    destruct (decide (matches {["_id" := VOid o]} d)) as [Hd|Hd].
    + rewrite !filter_cons_True by done. simpl. lia.
    + by rewrite !filter_cons_False.
Qed.

Lemma logged_ok N w call : world_ok N w -> world_ok N (logged w call).
Proof. intros [H1 H2 H0 H3 H4]. by split. Qed.

Lemma update_one_ok N name q data w :
  data !! "_id" = None ->
  world_ok N w -> world_ok N (update_one name q data w).2.
Proof.
  intros Hdata Hok. unfold update_one.
  destruct (decide (encodable_doc data)); [|by apply logged_ok].
  destruct (coll_update_one q data (collection w name)) as [c' n] eqn:Hupd.
  simpl. destruct Hok as [H1 H2 H0 H3 H4]. split; simpl; try done.
  - intros name' d. destruct (decide (name' = name)) as [->|Hne].
    + rewrite stored_collection. intros Hd.
      replace c' with (coll_update_one q data (collection w name)).1
        in Hd by by rewrite Hupd.
      apply coll_update_one_elem in Hd as [Hd | (d0 & Hd0 & ->)];
        [by apply (H3 name)|].
      destruct (H3 name d0 Hd0) as (i & Hi & Hid). exists i.
      split; [done|]. by rewrite lookup_union_r.
    + rewrite collection_stored_ne by done. apply H3.
  - intros name' o. destruct (decide (name' = name)) as [->|Hne].
    + rewrite stored_collection.
      replace c' with (coll_update_one q data (collection w name)).1
        by by rewrite Hupd.
      rewrite coll_update_one_lookups by done. apply H4.
    + rewrite collection_stored_ne by done. apply H4.
Qed.

Lemma delete_one_ok N name q w :
  world_ok N w -> world_ok N (delete_one name q w).2.
Proof.
  intros Hok. unfold delete_one.
  destruct (coll_delete_one q (collection w name)) as [c' n] eqn:Hdel.
  simpl. destruct Hok as [H1 H2 H0 H3 H4]. split; simpl; try done.
  - intros name' d. destruct (decide (name' = name)) as [->|Hne].
    + rewrite stored_collection. intros Hd. apply (H3 name).
      apply (coll_delete_one_elem q). by rewrite Hdel.
    + rewrite collection_stored_ne by done. apply H3.
  - intros name' o. destruct (decide (name' = name)) as [->|Hne].
    + rewrite stored_collection.
      pose proof (coll_delete_one_lookups q (collection w name) o) as Hle.
      rewrite Hdel in Hle. simpl in Hle. specialize (H4 name o). lia.
    + rewrite collection_stored_ne by done. apply H4.
Qed.

Lemma insert_one_ok N name d w :
  world_ok N w -> (oid_count w < N)%nat ->
  world_ok N (insert_one name d w).2.
Proof.
  intros Hok Hroom.
  pose proof (world_ok_next_absent N w name Hok Hroom) as Hnew.
  destruct Hok as [H1 H2 H0 H3 H4].
  destruct (decide (encodable_doc d)) as [Henc|Henc].
  2:{ rewrite insert_one_unencodable by done. split; try done.
      intros name' x Hx. destruct (H3 name' x Hx) as (i & Hi & Hid).
      exists i. split; [simpl; lia | done]. }
  assert (Hcoll : forall name',
    collection (insert_one name d w).2 name'
    = if decide (name' = name)
      then coll_insert_one (oid_gen w (oid_count w)) d (collection w name)
      else collection w name').
  { intros name'. case_decide as Hn.
    - subst. by apply collection_after_insert.
    - by apply collection_after_insert_ne. }
  assert (Hgen : oid_gen (insert_one name d w).2 = oid_gen w /\
                 oid_count (insert_one name d w).2 = S (oid_count w))
    by by rewrite insert_one_encodable.
  destruct Hgen as [Hgen Hcount].
  split; rewrite ?Hgen, ?Hcount; try done.
  - intros name' x. rewrite Hcoll. simpl. case_decide as Hn.
    + subst. unfold coll_insert_one.
      intros [Hx | ->%list_elem_of_singleton]%elem_of_app.
      * destruct (H3 name x Hx) as (i & Hi & Hid). exists i. split; [lia|done].
      * exists (oid_count w). split; [lia|]. apply lookup_insert_eq.
    + intros Hx. destruct (H3 name' x Hx) as (i & Hi & Hid).
      exists i. split; [lia|done].
  - intros name' o. rewrite Hcoll. case_decide as Hn; [|apply H4].
    subst. unfold coll_insert_one, coll_find. rewrite filter_app, length_app.
    destruct (List.list_eq_dec Byte.byte_eq_dec o (oid_gen w (oid_count w)))
      as [->|Ho].
    + apply absent_no_match in Hnew.
      replace (filter (matches {["_id" := VOid (oid_gen w (oid_count w))]})
                 (collection w name)) with (@nil doc).
      * rewrite filter_cons_True by apply matches_id, lookup_insert_eq. done.
      * symmetry. by apply coll_find_none.
    + rewrite filter_cons_False.
      * simpl. specialize (H4 name o). unfold coll_find in H4. lia.
      * rewrite matches_id, lookup_insert_eq. congruence.
Qed.

Lemma for_each_world {A B} (f : A -> M B) l w :
  (forall x w0, (f x w0).2 = w0) -> (for_each f l w).2 = w.
Proof.
  intros Hf. revert w. induction l as [|x l IH]; intros w; simpl; [done|].
  unfold bind. specialize (Hf x w). destruct (f x w) as [[y|e] w1]; simpl in *;
    subst; [|done].
  specialize (IH w). by destruct (for_each f l w) as [[ys|e] w2].
Qed.

Lemma _doc_with_id_world d w : (_doc_with_id d w).2 = w.
Proof.
  unfold _doc_with_id. destruct (falsy d); [done|].
  destruct d as [m|]; [|done]. by destruct (m !! "_id").
Qed.

(** Every handler keeps the store invariant, the creating ones as long
    as the generator has a distinct identifier left. *)
Lemma handlers_keep_world_ok N w :
  world_ok N w ->
  (forall c f, world_ok N (list_products c f w).2) /\
  (forall s, world_ok N (get_product s w).2) /\
  (forall p, (oid_count w < N)%nat -> world_ok N (create_product p w).2) /\
  (forall s p, world_ok N (update_product s p w).2) /\
  (forall s, world_ok N (delete_product s w).2) /\
  (forall o, (oid_count w < N)%nat -> world_ok N (create_order o w).2).
Proof.
  intros Hok. repeat apply conj.
  - intros c f. unfold list_products.
    match goal with |- context [get_documents _ ?q _] => generalize q end.
    intros q. unfold bind at 1. unfold get_documents, bind, find, ret.
    rewrite for_each_world by (intros; apply _doc_with_id_world).
    by apply logged_ok.
  - intros s. unfold get_product, bind, _oid.
    destruct (ObjectId_of_str s) as [o|]; [|done].
    unfold ret, find_one. destruct (falsy _); [by apply logged_ok|].
    rewrite _doc_with_id_world. by apply logged_ok.
  - intros p Hroom. rewrite create_product_world.
    by apply (insert_one_ok N "product").
  - intros s p. unfold update_product, bind, _oid.
    destruct (ObjectId_of_str s) as [o|]; [|done]. unfold ret.
    pose proof (update_one_ok N "product" {["_id" := VOid o]}
                  (model_dump p) w (Product_model_dump_id p) Hok) as Hupd.
    destruct (update_one _ _ _ w) as [[n|e] w1]; [|done].
    by destruct (n =? 0)%Z.
  - intros s. unfold delete_product, bind, _oid.
    destruct (ObjectId_of_str s) as [o|]; [|done]. unfold ret.
    pose proof (delete_one_ok N "product" {["_id" := VOid o]} w Hok) as Hdel.
    destruct (delete_one _ _ w) as [[n|e] w1]; [|done].
    by destruct (n =? 0)%Z.
  - intros o Hroom. rewrite create_order_world.
    by apply (insert_one_ok N "order").
Qed.

Lemma unique_ids_nil : unique_ids [].
Proof. intros o. simpl. lia. Qed.

Lemma unique_ids_singleton d : unique_ids [d].
Proof.
  intros o. unfold coll_find.
  destruct (decide (matches {["_id" := VOid o]} d)) as [Hd|Hd].
  - by rewrite filter_cons_True.
  - rewrite filter_cons_False by done. simpl. lia.
Qed.

(** ** Further properties of the product handlers *)

Lemma coll_find_one_Some q c d :
  coll_find_one q c = Some d -> d ∈ c /\ matches q d.
Proof.
  unfold coll_find_one, coll_find. intros Hd%head_Some_elem_of.
  apply list_elem_of_filter in Hd. tauto.
Qed.

Lemma get_product_when_found s o d w :
  ObjectId_of_str s = Some o ->
  coll_find_one {["_id" := VOid o]} (collection w "product") = Some d ->
  get_product s w
  = (Return (shaped d), logged w (Call_find_one "product" {["_id" := VOid o]})).
Proof.
  intros Ho Hd. unfold get_product, bind, _oid. rewrite Ho.
  unfold ret, find_one. rewrite Hd.
  apply coll_find_one_Some in Hd as [_ Hid%matches_id].
  rewrite falsy_has_id by (by eexists).
  by rewrite _doc_with_id_shaped by (by eexists).
Qed.

(** X1: [_doc_with_id] on a document that carries an [_id] returns the
    document without the [_id] item and with the string form of the
    identifier under [id], replacing an [id] item the document may have
    had; every other item is returned as stored. *)
Theorem doc_with_id_reshapes d v w :
  d !! "_id" = Some v ->
  exists r,
    _doc_with_id (Some d) w = (Return (Some r), w) /\
    r !! "id" = Some (VStr (py_str v)) /\
    r !! "_id" = None /\
    forall k, k <> "id" -> k <> "_id" -> r !! k = d !! k.
Proof.
  intros Hv. eexists. split.
  - rewrite _doc_with_id_shaped by (by eexists). unfold shaped.
    rewrite Hv. reflexivity.
  - split; [apply lookup_insert_eq|]. split.
    + rewrite lookup_insert_ne by done. apply lookup_delete_eq.
    + intros k Hk1 Hk2. by rewrite lookup_insert_ne, lookup_delete_ne.
Qed.

(** X2: [_doc_with_id] returns [None] for [None] and for an empty
    document, and raises [KeyError] for a non-empty document that has no
    [_id] item. *)
Theorem doc_with_id_without_id d w :
  d !! "_id" = None ->
  _doc_with_id None w = (Return None, w) /\
  _doc_with_id (Some d) w
  = (if decide (d = ∅) then Return None else Raise (KeyError "_id"), w).
Proof.
  intros Hd. split; [done|]. unfold _doc_with_id, falsy.
  destruct (decide (d = ∅)) as [->|Hne].
  - by rewrite bool_decide_eq_true_2.
  - rewrite bool_decide_eq_false_2 by done. by rewrite Hd.
Qed.

(** X3: [get_product] on the identifier of a stored product returns that
    product with its [_id] replaced by [id]; the [id] returned is the
    lower-case spelling of the identifier requested (without the
    whitespace, if the string requested had any), and the collections
    are left as they were. *)
Theorem get_product_found s o d w :
  ObjectId_of_str s = Some o ->
  coll_find_one {["_id" := VOid o]} (collection w "product") = Some d ->
  exists r,
    (get_product s w).1 = Return (Some r) /\
    r !! "id" = Some (VStr (str_lower (unspaced s))) /\
    (valid_id_string s = true -> r !! "id" = Some (VStr (str_lower s))) /\
    r !! "_id" = None /\
    (forall k, k <> "id" -> k <> "_id" -> r !! k = d !! k) /\
    colls (get_product s w).2 = colls w.
Proof.
  intros Ho Hd. rewrite (get_product_when_found s o d w Ho Hd).
  apply coll_find_one_Some in Hd as [_ Hid%matches_id].
  unfold shaped. rewrite Hid. eexists. split; [reflexivity|].
  split; [|split].
  - rewrite lookup_insert_eq. simpl. by rewrite (ObjectId_of_str_unspaced s o).
  - intros Hs. rewrite lookup_insert_eq. simpl.
    by rewrite (ObjectId_of_str_lower s o).
  - split; [|split; [|done]].
    + rewrite lookup_insert_ne by done. apply lookup_delete_eq.
    + intros k Hk1 Hk2. by rewrite lookup_insert_ne, lookup_delete_ne.
Qed.

(** X4: after a successful [update_product], [get_product] on the same
    identifier returns the nine Product fields as the payload dumps them,
    the identifier under [id], and every other stored item unchanged. *)
Theorem update_then_get s o (product : Product) d r0 w :
  ObjectId_of_str s = Some o ->
  coll_find_one {["_id" := VOid o]} (collection w "product") = Some d ->
  (update_product s product w).1 = Return r0 ->
  exists r,
    r0 = <["id" := VStr s]> {["updated" := VBool true]} /\
    images product = [] /\
    (get_product s (update_product s product w).2).1 = Return (Some r) /\
    r !! "id" = Some (VStr (ObjectId_str o)) /\
    (forall k, k ∈ Product_fields ->
               r !! k = Product_model_dump product !! k) /\
    (forall k, k ∉ Product_fields -> k <> "id" -> k <> "_id" ->
               r !! k = d !! k).
Proof.
  intros Ho Hd Hret.
  assert (Himg : images product = []).
  { destruct (images product) as [|i l] eqn:Himg; [done|].
    by rewrite (update_product_unencodable s o product w Ho)
      in Hret by (by rewrite Himg). }
  destruct (coll_update_one_found _ (Product_model_dump product) _ _ Hd)
    as (c1 & c2 & Hc & Hc1 & Hm & Hupd).
  assert (Hid : (Product_model_dump product ∪ d) !! "_id" = Some (VOid o)).
  { rewrite lookup_union_r by apply Product_model_dump_id.
    by apply matches_id. }
  rewrite (update_product_run s o product w _ _ Ho Himg Hupd) in Hret |- *.
  cbn [Z.eqb fst snd] in Hret |- *. injection Hret as <-.
  eexists. split; [done|]. split; [done|].
  rewrite (get_product_when_found s o (Product_model_dump product ∪ d)); [|done|].
  2:{ rewrite stored_collection. apply coll_find_one_app; [done|].
      by apply matches_id. }
  unfold shaped. rewrite Hid. split; [reflexivity|]. split.
  - by rewrite lookup_insert_eq.
  - split.
    + intros k Hk. pose proof Hk as Hk'.
      apply (Product_model_dump_fields product) in Hk as [v Hv].
      rewrite lookup_insert_ne, lookup_delete_ne.
      * rewrite Hv. by apply lookup_union_Some_l.
      * intros <-. by rewrite Product_model_dump_id in Hv.
      * intros <-. unfold Product_fields, Product_plain_fields in Hk'.
        repeat (apply elem_of_cons in Hk' as [[=] | Hk']).
        by apply elem_of_nil in Hk'.
    + intros k Hk Hk1 Hk2. rewrite lookup_insert_ne, lookup_delete_ne by done.
      apply lookup_union_r.
      destruct (Product_model_dump product !! k) eqn:Hv; [|done].
      exfalso. apply Hk, (Product_model_dump_fields product k). by eexists.
Qed.

Lemma union_twice (data d : doc) : data ∪ (data ∪ d) = data ∪ d.
Proof. by rewrite (assoc_L (∪)), (idemp_L (∪)). Qed.

Lemma coll_update_one_twice o data c :
  data !! "_id" = None ->
  coll_update_one {["_id" := VOid o]} data
    (coll_update_one {["_id" := VOid o]} data c).1
  = coll_update_one {["_id" := VOid o]} data c.
Proof.
  intros Hdata. induction c as [|d c IH]; simpl; [done|].
  destruct (decide (matches {["_id" := VOid o]} d)) as [Hd|Hd]; simpl.
  - rewrite decide_True.
    + by rewrite union_twice.
    + apply matches_id. rewrite lookup_union_r by done. by apply matches_id.
  - destruct (coll_update_one {["_id" := VOid o]} data c) as [c' n] eqn:Hc.
    simpl in *. rewrite decide_False by done. by rewrite IH.
Qed.

(** X5: [update_product] is idempotent: repeating an update with the
    same identifier and payload gives the same response and leaves the
    product collection as the first update left it. *)
Theorem update_product_idempotent s (product : Product) w :
  (update_product s product (update_product s product w).2).1
    = (update_product s product w).1 /\
  collection (update_product s product (update_product s product w).2).2
             "product"
    = collection (update_product s product w).2 "product".
Proof.
  destruct (ObjectId_of_str s) as [o|] eqn:Ho.
  - destruct (decide (images product = [])) as [Himg|Himg].
    + pose proof (coll_update_one_twice o (Product_model_dump product)
                    (collection w "product") (Product_model_dump_id product))
        as Htwice.
      destruct (coll_update_one {["_id" := VOid o]}
                  (Product_model_dump product) (collection w "product"))
        as [c1 n1] eqn:Hfirst.
      cbn [fst] in Htwice.
      rewrite (update_product_run s o product w c1 n1 Ho Himg Hfirst).
      cbn [fst snd].
      rewrite (update_product_run s o product _ c1 n1 Ho Himg)
        by (by rewrite stored_collection).
      cbn [fst snd]. by rewrite !stored_collection.
    + by rewrite !(update_product_unencodable s o product _ Ho Himg).
  - unfold update_product, bind, _oid. by rewrite Ho.
Qed.

Lemma coll_delete_one_found q c d :
  coll_find_one q c = Some d ->
  exists c1 c2,
    c = (c1 ++ d :: c2)%list /\
    Forall (fun x => ~ matches q x) c1 /\
    coll_delete_one q c = ((c1 ++ c2)%list, 1%Z).
Proof.
  unfold coll_find_one, coll_find.
  induction c as [|x c IH]; simpl; [done|].
  destruct (decide (matches q x)) as [Hx|Hx].
  - rewrite filter_cons_True by done. intros [= ->]. by exists [], c.
  - rewrite filter_cons_False by done. intros Hd.
    destruct (IH Hd) as (c1 & c2 & -> & Hc1 & ->).
    exists (x :: c1), c2. repeat split; try done. by constructor.
Qed.

Lemma delete_product_run s o w c' n :
  ObjectId_of_str s = Some o ->
  coll_delete_one {["_id" := VOid o]} (collection w "product") = (c', n) ->
  delete_product s w
  = (if (n =? 0)%Z then Raise (HTTPException 404 "Product not found")
     else Return {["deleted" := VBool true]},
     stored w (Call_delete_one "product" {["_id" := VOid o]}) "product" c').
Proof.
  intros Ho Hdel. unfold delete_product, bind, _oid. rewrite Ho.
  unfold ret, delete_one. rewrite Hdel. by destruct (n =? 0)%Z.
Qed.

Lemma get_product_when_absent s o w :
  ObjectId_of_str s = Some o ->
  Forall (fun x => ~ matches {["_id" := VOid o]} x) (collection w "product") ->
  (get_product s w).1 = Raise (HTTPException 404 "Product not found").
Proof.
  intros Ho Hnone. unfold get_product, bind, _oid. rewrite Ho.
  unfold ret, find_one. by rewrite coll_find_one_None.
Qed.

(** X6: [delete_product] on the identifier of a stored product removes
    that document and nothing else, the remaining documents keeping their
    order; with identifier lookup unique, a [get_product] that follows
    raises the 404. *)
Theorem delete_removes_identified s o d w :
  ObjectId_of_str s = Some o ->
  coll_find_one {["_id" := VOid o]} (collection w "product") = Some d ->
  unique_ids (collection w "product") ->
  exists c1 c2,
    collection w "product" = (c1 ++ d :: c2)%list /\
    (delete_product s w).1 = Return {["deleted" := VBool true]} /\
    collection (delete_product s w).2 "product" = (c1 ++ c2)%list /\
    (get_product s (delete_product s w).2).1
      = Raise (HTTPException 404 "Product not found").
Proof.
  intros Ho Hd Huniq.
  destruct (coll_delete_one_found _ _ _ Hd) as (c1 & c2 & Hc & Hc1 & Hdel).
  pose proof (coll_delete_one_find {["_id" := VOid o]}
                (collection w "product")) as [Hrest _].
  rewrite Hdel in Hrest. cbn [fst] in Hrest.
  assert (Hnone : Forall (fun x => ~ matches {["_id" := VOid o]} x)
                         (c1 ++ c2)).
  { apply coll_find_nil. rewrite Hrest. specialize (Huniq o).
    unfold coll_find_one in Hd.
    destruct (coll_find {["_id" := VOid o]} (collection w "product"))
      as [|x [|y l]]; simpl in *; [done..|lia]. }
  exists c1, c2. split; [done|].
  rewrite (delete_product_run s o w _ _ Ho Hdel). cbn [fst snd].
  rewrite stored_collection. repeat split.
  apply (get_product_when_absent s o); [done|].
  by rewrite stored_collection.
Qed.

Lemma coll_delete_one_last q c d :
  Forall (fun x => ~ matches q x) c -> matches q d ->
  coll_delete_one q (c ++ [d]) = (c, 1%Z).
Proof.
  intros Hc Hd. induction Hc as [|x c Hx _ IH]; simpl.
  - by rewrite decide_True.
  - rewrite decide_False by done. by rewrite IH.
Qed.

(** X7: when [create_product] returns, it returns the new identifier,
    and deleting the product by the identifier returned leaves the
    product collection as it was before the creation. *)
Theorem create_then_delete (product : Product) r w :
  (create_product product w).1 = Return r ->
  let oid := oid_gen w (oid_count w) in
  length oid = 12%nat ->
  absent oid (collection w "product") ->
  r = {["id" := VStr (ObjectId_str oid)]} /\
  (delete_product (ObjectId_str oid) (create_product product w).2).1
    = Return {["deleted" := VBool true]} /\
  collection (delete_product (ObjectId_str oid) (create_product product w).2).2
             "product"
    = collection w "product".
Proof.
  intros [Himg Hr]%create_product_returns oid Hlen Habs%absent_no_match.
  split; [done|]. rewrite create_product_world.
  apply Product_encodable in Himg.
  rewrite (delete_product_run (ObjectId_str oid) oid _
             (collection w "product") 1%Z).
  - cbn [fst snd]. by rewrite stored_collection.
  - by apply ObjectId_of_str_str.
  - rewrite collection_after_insert by done. unfold coll_insert_one. fold oid.
    apply coll_delete_one_last; [done|]. apply matches_id, lookup_insert_eq.
Qed.

Lemma coll_find_all c : coll_find ∅ c = c.
Proof.
  unfold coll_find. induction c as [|d c IH]; [done|].
  rewrite filter_cons_True by apply matches_empty. by rewrite IH.
Qed.

(** X8: a product just created is the last item of the unfiltered
    listing, after the products that were there, and it is listed with
    the identifier that [create_product] returned. *)
Theorem create_then_list (product : Product) r w :
  (create_product product w).1 = Return r ->
  has_ids (collection w "product") ->
  let oid := oid_gen w (oid_count w) in
  r = {["id" := VStr (ObjectId_str oid)]} /\
  (list_products None None (create_product product w).2).1
  = Return ((shaped <$> collection w "product")
            ++ [Some (<["id" := VStr (ObjectId_str oid)]>
                        (Product_model_dump product))])%list.
Proof.
  intros [Himg%Product_encodable Hr]%create_product_returns Hids oid.
  split; [done|]. unfold list_products.
  rewrite create_product_world.
  rewrite get_documents_shaped.
  - cbn [fst]. rewrite coll_find_all, collection_after_insert by done.
    unfold coll_insert_one. rewrite fmap_app. fold oid.
    rewrite list_fmap_singleton. unfold shaped at 2.
    rewrite lookup_insert_eq. cbn [py_str].
    by rewrite delete_insert_id by apply Product_model_dump_id.
  - rewrite collection_after_insert by done. unfold coll_insert_one.
    apply Forall_app. split; [done|]. constructor; [|constructor].
    rewrite lookup_insert_eq. by eexists.
Qed.

(** X9: [list_products] and [get_product] only read: whatever the
    request, found or not, well-formed or not, the collections and the
    identifier generator are left as they were. *)
Theorem reads_leave_the_store c f s w :
  colls (list_products c f w).2 = colls w /\
  oid_count (list_products c f w).2 = oid_count w /\
  colls (get_product s w).2 = colls w /\
  oid_count (get_product s w).2 = oid_count w.
Proof.
  assert (Hlist : exists q, (list_products c f w).2
                            = logged w (Call_find "product" q)).
  { unfold list_products.
    match goal with |- context [get_documents _ ?q _] => exists q end.
    unfold bind at 1. unfold get_documents, bind, find, ret.
    by rewrite for_each_world by (intros; apply _doc_with_id_world). }
  destruct Hlist as [q ->].
  assert (Hget : (get_product s w).2 = w \/
                 exists q', (get_product s w).2 = logged w q').
  { unfold get_product, bind, _oid.
    destruct (ObjectId_of_str s) as [o|]; [|by left]. right.
    unfold ret, find_one. eexists.
    destruct (falsy _); [done|]. by rewrite _doc_with_id_world. }
  destruct Hget as [-> | [q' ->]]; done.
Qed.

(** X10: the product handlers touch no collection but [product], and
    [create_order] none but [order]. *)
Theorem handlers_keep_to_their_collection name s (product : Product)
    (order : Order) w :
  (name <> "product" ->
   collection (create_product product w).2 name = collection w name /\
   collection (update_product s product w).2 name = collection w name /\
   collection (delete_product s w).2 name = collection w name) /\
  (name <> "order" ->
   collection (create_order order w).2 name = collection w name).
Proof.
  split.
  - intros Hne. repeat apply conj.
    + rewrite create_product_world. by apply collection_after_insert_ne.
    + destruct (ObjectId_of_str s) as [o|] eqn:Ho;
        [|unfold update_product, bind, _oid; by rewrite Ho].
      destruct (decide (images product = [])) as [Himg|Himg];
        [|by rewrite (update_product_unencodable s o product w Ho Himg)].
      destruct (coll_update_one {["_id" := VOid o]}
                  (Product_model_dump product) (collection w "product"))
        as [c' n] eqn:Hupd.
      rewrite (update_product_run s o product w c' n Ho Himg Hupd). cbn [snd].
      by rewrite collection_stored_ne.
    + destruct (ObjectId_of_str s) as [o|] eqn:Ho;
        [|unfold delete_product, bind, _oid; by rewrite Ho].
      destruct (coll_delete_one {["_id" := VOid o]} (collection w "product"))
        as [c' n] eqn:Hdel.
      rewrite (delete_product_run s o w c' n Ho Hdel). cbn [snd].
      by rewrite collection_stored_ne.
  - intros Hne. rewrite create_order_world.
    by apply collection_after_insert_ne.
Qed.

(** X11: every product handler and [create_order] invokes at most one
    store operation per request. *)
Theorem one_store_operation_per_request c f s (product : Product)
    (order : Order) w :
  let at_most_one (w' : world) :=
    exists l, calls w' = (l ++ calls w)%list /\ (length l <= 1)%nat in
  at_most_one (list_products c f w).2 /\
  at_most_one (get_product s w).2 /\
  at_most_one (create_product product w).2 /\
  at_most_one (update_product s product w).2 /\
  at_most_one (delete_product s w).2 /\
  at_most_one (create_order order w).2.
Proof.
  intros at_most_one.
  assert (H0 : at_most_one w) by (exists []; split; [done | simpl; lia]).
  assert (H1 : forall w', (exists x, calls w' = x :: calls w) -> at_most_one w').
  { intros w' [x Hx]. exists [x]. split; [done | simpl; lia]. }
  repeat apply conj.
  - apply H1. unfold list_products.
    match goal with |- context [get_documents _ ?q _] => generalize q end.
    intros q. unfold bind at 1. unfold get_documents, bind, find, ret.
    rewrite for_each_world by (intros; apply _doc_with_id_world). by eexists.
  - unfold get_product, bind, _oid.
    destruct (ObjectId_of_str s) as [o|]; [|done]. apply H1.
    unfold ret, find_one. destruct (falsy _); [by eexists|].
    rewrite _doc_with_id_world. by eexists.
  - apply H1. rewrite create_product_world. unfold insert_one.
    destruct (decide _); by eexists.
  - destruct (ObjectId_of_str s) as [o|] eqn:Ho;
      [|unfold update_product, bind, _oid; by rewrite Ho].
    destruct (decide (images product = [])) as [Himg|Himg].
    + destruct (coll_update_one {["_id" := VOid o]}
                  (Product_model_dump product) (collection w "product"))
        as [c' n] eqn:Hupd.
      rewrite (update_product_run s o product w c' n Ho Himg Hupd).
      apply H1. by eexists.
    + rewrite (update_product_unencodable s o product w Ho Himg).
      apply H1. by eexists.
  - destruct (ObjectId_of_str s) as [o|] eqn:Ho;
      [|unfold delete_product, bind, _oid; by rewrite Ho].
    destruct (coll_delete_one {["_id" := VOid o]} (collection w "product"))
      as [c' n] eqn:Hdel.
    rewrite (delete_product_run s o w c' n Ho Hdel).
    apply H1. by eexists.
  - apply H1. rewrite create_order_world. unfold insert_one.
    destruct (decide _); by eexists.
Qed.

(** ** Further properties of the schemas *)

Lemma v_items_Forall {A} (f : value -> validated A) (P : A -> Prop) i l r :
  (forall x a, f x = Valid a -> P a) ->
  v_items f i l = Valid r -> Forall P r.
Proof.
  intros Hf. revert i r. induction l as [|x l IH]; intros i r; cbn [v_items].
  - intros [= <-]. constructor.
  - intros (g & r' & (h & a & [= <-] & Ha & ->)%ap_Valid_inv & Hr & ->)
      %ap_Valid_inv.
    constructor; [|by eapply IH].
    eapply Hf. by apply at_loc_Valid_inv in Ha.
Qed.

Lemma v_items_lookup {A} (f : value -> validated A) i l r j x :
  v_items f i l = Valid r -> l !! j = Some x ->
  exists a, r !! j = Some a /\ f x = Valid a.
Proof.
  revert i r j. induction l as [|y l IH]; intros i r j; cbn [v_items]; [done|].
  intros (g & r' & (h & a & [= <-] & Ha & ->)%ap_Valid_inv & Hr & ->)
    %ap_Valid_inv.
  destruct j as [|j]; simpl.
  - intros [= <-]. exists a. split; [done|]. by apply at_loc_Valid_inv in Ha.
  - intros Hx. by apply (IH (S i)).
Qed.

Lemma field_Valid_inv {A} k dflt (f : value -> validated A) d a :
  (required k f d = Valid a -> exists v, dget k d = Some v /\ f v = Valid a) /\
  (defaulted k dflt f d = Valid a ->
   (dget k d = None /\ a = dflt) \/
   exists v, dget k d = Some v /\ f v = Valid a).
Proof.
  unfold required, defaulted. destruct (dget k d) as [v|]; split; try done.
  - intros Hv%at_loc_Valid_inv. by exists v.
  - intros Hv%at_loc_Valid_inv. right. by exists v.
  - intros [= <-]. by left.
Qed.

Lemma ge_0_inv v f : and_then (v_float v) ge_0 = Valid f -> SFleb float_zero f = true.
Proof.
  destruct (v_float v) as [g|]; [|done]. simpl. unfold ge_0.
  destruct (SFleb float_zero g) eqn:Hle; [|done]. by intros [= <-].
Qed.

Lemma ge_1_inv v z : and_then (v_int v) ge_1 = Valid z -> (1 <= z)%Z.
Proof.
  destruct (v_int v) as [y|]; [|done]. simpl. unfold ge_1.
  destruct (1 <=? y)%Z eqn:Hle; [|done]. intros [= <-]. lia.
Qed.

Lemma ProductImage_validate_url v i :
  ProductImage_validate v = Valid i -> HttpUrl_ok (url i) = true.
Proof.
  destruct v as [| | | | | | | | |d]; try done. unfold ProductImage_validate.
  intros (g & a & (h & u & [= <-] & Hu & ->)%ap_Valid_inv & _ & ->)
    %ap_Valid_inv.
  apply (field_Valid_inv "url" u) in Hu as (v & _ & Hv). simpl.
  unfold v_HttpUrl in Hv. destruct v as [| | | |s|s| | | |]; try done;
    destruct (HttpUrl_ok s) eqn:Hs; try done; injection Hv as <-; [|done].
  by apply HttpUrl_str_ok.
Qed.

Lemma Product_validate_checked v p :
  Product_validate v = Valid p ->
  SFleb float_zero (price p) = true /\
  Forall (fun i => HttpUrl_ok (url i) = true) (images p).
Proof.
  destruct v as [| | | | | | | | |d]; try done.
  intros (_ & _ & Hprice & _ & _ & Himgs & _)%Product_validate_inv. split.
  - apply (field_Valid_inv "price" (price p)) in Hprice as (v & _ & Hv).
    by apply ge_0_inv in Hv.
  - apply (field_Valid_inv "images") in Himgs as [[_ ->] | (v & _ & Hv)];
      [constructor|].
    destruct v; try done. simpl in Hv.
    eapply v_items_Forall; [|exact Hv]. apply ProductImage_validate_url.
Qed.

(** X12: a product that passes validation has a price that is not below
    zero and images whose urls all pass the URL check: [create_product]
    and [update_product] never see another one. *)
Theorem valid_product_invariant v p :
  Product_validate v = Valid p ->
  SFleb float_zero (price p) = true /\
  Forall (fun i => HttpUrl_ok (url i) = true) (images p).
Proof. apply Product_validate_checked. Qed.

Lemma CartItem_validate_quantity v c :
  CartItem_validate v = Valid c -> (1 <= quantity c)%Z.
Proof.
  destruct v as [| | | | | | | | |d]; try done. unfold CartItem_validate.
  intros (g & q & (h & a & [= <-] & _ & ->)%ap_Valid_inv & Hq & ->)
    %ap_Valid_inv.
  simpl. apply (field_Valid_inv "quantity") in Hq as [[_ ->] | (v & _ & Hv)];
    [lia|].
  by apply ge_1_inv in Hv.
Qed.

Lemma OrderCustomer_validate_email v c :
  OrderCustomer_validate v = Valid c -> EmailStr_ok (email c) = true.
Proof.
  destruct v as [| | | | | | | | |d]; try done. unfold OrderCustomer_validate.
  intros (g & ph & (h & e & (h' & n & [= <-] & _ & ->)%ap_Valid_inv & He & ->)
          %ap_Valid_inv & _ & ->)%ap_Valid_inv.
  simpl. apply (field_Valid_inv "email" e) in He as (v & _ & Hv).
  unfold v_EmailStr in Hv. destruct (v_str v) as [s|]; [|done]. simpl in Hv.
  destruct (EmailStr_ok s) eqn:Hs; [|done]. by injection Hv as <-.
Qed.

(** X13: an order that passes validation has an amount that is not below
    zero, items whose quantities are all at least one, and a customer
    email that passes the email check. *)
Theorem valid_order_invariant v o :
  Order_validate v = Valid o ->
  SFleb float_zero (amount o) = true /\
  Forall (fun i => (1 <= quantity i)%Z) (items o) /\
  EmailStr_ok (email (customer o)) = true.
Proof.
  destruct v as [| | | | | | | | |d]; try done.
  intros (Hitems & Hamount & _ & _ & _ & _ & Hcust & _)%Order_validate_inv.
  repeat apply conj.
  - apply (field_Valid_inv "amount" (amount o)) in Hamount as (v & _ & Hv).
    by apply ge_0_inv in Hv.
  - apply (field_Valid_inv "items" (items o)) in Hitems as (v & _ & Hv).
    destruct v; try done. simpl in Hv.
    eapply v_items_Forall; [|exact Hv]. apply CartItem_validate_quantity.
  - apply (field_Valid_inv "customer" (customer o)) in Hcust as (v & _ & Hv).
    by apply OrderCustomer_validate_email in Hv.
Qed.

Lemma OrderAddress_validate_country a x :
  OrderAddress_validate (VDict a) = Valid x ->
  defaulted "country" "NG" v_str a = Valid (country x).
Proof.
  unfold OrderAddress_validate. intros H.
  repeat (apply ap_Valid_inv in H as (? & ? & H & ? & ->)).
  by injection H as <-.
Qed.

Lemma CartItem_validate_fields item c :
  CartItem_validate (VDict item) = Valid c ->
  defaulted "quantity" 1%Z (fun x => and_then (v_int x) ge_1) item
  = Valid (quantity c).
Proof.
  unfold CartItem_validate. intros H.
  repeat (apply ap_Valid_inv in H as (? & ? & H & ? & ->)).
  by injection H as <-.
Qed.

Lemma defaulted_absent {A} k dflt (f : value -> validated A) d a :
  defaulted k dflt f d = Valid a -> dget k d = None -> a = dflt.
Proof. unfold defaulted. intros Ha Hk. rewrite Hk in Ha. by injection Ha. Qed.

(** X14: an order body that leaves out the optional fields is validated
    with the schema's defaults: currency NGN, status pending, delivery
    option standard, no payment id and no creation time; an address
    without a country gets NG and an item without a quantity gets 1. *)
Theorem order_defaults d o :
  Order_validate (VDict d) = Valid o ->
  (dget "currency" d = None -> currency o = "NGN") /\
  (dget "status" d = None -> status o = "pending") /\
  (dget "delivery_option" d = None -> delivery_option o = "standard") /\
  (dget "payment_id" d = None -> payment_id o = None) /\
  (dget "created_at" d = None -> created_at o = None) /\
  (forall a, dget "address" d = Some (VDict a) -> dget "country" a = None ->
             country (address o) = "NG") /\
  (forall l i item, dget "items" d = Some (VList l) ->
     l !! i = Some (VDict item) -> dget "quantity" item = None ->
     exists c, items o !! i = Some c /\ quantity c = 1%Z).
Proof.
  intros (Hitems & _ & Hcur & _ & Hpid & Hstatus & _ & Haddr & Hdeliv
          & Hcreated)%Order_validate_inv.
  repeat apply conj.
  - exact (defaulted_absent _ _ _ _ _ Hcur).
  - exact (defaulted_absent _ _ _ _ _ Hstatus).
  - exact (defaulted_absent _ _ _ _ _ Hdeliv).
  - exact (defaulted_absent _ _ _ _ _ Hpid).
  - exact (defaulted_absent _ _ _ _ _ Hcreated).
  - intros a Ha Hcountry. rewrite (required_Some _ _ _ _ Ha) in Haddr.
    apply at_loc_Valid_inv, OrderAddress_validate_country in Haddr.
    by apply defaulted_absent in Haddr.
  - intros l i item Hl Hi Hq. rewrite (required_Some _ _ _ _ Hl) in Hitems.
    apply at_loc_Valid_inv in Hitems. simpl in Hitems.
    destruct (v_items_lookup _ _ _ _ _ _ Hitems Hi) as (c & Hc & Hval).
    exists c. split; [done|]. apply CartItem_validate_fields in Hval.
    by apply defaulted_absent in Hval.
Qed.




Lemma v_optional_str_dump o : v_optional v_str (opt_value VStr o) = Valid o.
Proof. by destruct o. Qed.

Lemma ProductImage_revalidates i :
  HttpUrl_ok (url i) = true ->
  ProductImage_validate (ProductImage_model_dump i) = Valid i.
Proof.
  destruct i as [u al]. simpl. intros Hu.
  unfold ProductImage_validate, ProductImage_model_dump, required,
    defaulted, v_HttpUrl. simpl. rewrite Hu. simpl.
  by rewrite v_optional_str_dump.
Qed.

(** X16: the models nested in a product or an order validate again from
    their own dump, to the same value: an image whose url passes the URL
    check, a cart item whose quantity is at least one, a customer whose
    email passes the email check, and any address. *)
Theorem nested_models_revalidate (i : ProductImage) (c : CartItem)
    (cu : OrderCustomer) (a : OrderAddress) :
  (HttpUrl_ok (url i) = true ->
   ProductImage_validate (ProductImage_model_dump i) = Valid i) /\
  ((1 <= quantity c)%Z ->
   CartItem_validate (CartItem_model_dump c) = Valid c) /\
  (EmailStr_ok (email cu) = true ->
   OrderCustomer_validate (OrderCustomer_model_dump cu) = Valid cu) /\
  OrderAddress_validate (OrderAddress_model_dump a) = Valid a.
Proof.
  repeat apply conj.
  - apply ProductImage_revalidates.
  - destruct c as [pid q]. simpl. intros Hq.
    unfold CartItem_validate, CartItem_model_dump, required, defaulted, ge_1.
    simpl. by replace (1 <=? q)%Z with true by (symmetry; apply Z.leb_le; lia).
  - destruct cu as [n e ph]. simpl. intros He.
    unfold OrderCustomer_validate, OrderCustomer_model_dump, required,
      v_EmailStr. simpl. by rewrite He.
  - destruct a as [l1 l2 ci st pc co].
    unfold OrderAddress_validate, OrderAddress_model_dump, required,
      defaulted. simpl. by rewrite !v_optional_str_dump.
Qed.

Lemma dget_elem l k v : NoDup l.*1 -> (k, v) ∈ l -> dget k l = Some v.
Proof.
  induction l as [|[k' v'] l IH]; simpl; [by intros _ ?%elem_of_nil|].
  intros [Hk' Hl]%NoDup_cons [[= -> ->] | Hin]%elem_of_cons.
  - by rewrite String.eqb_refl.
  - destruct (String.eqb k k') eqn:Hk; [|by apply IH].
    apply String.eqb_eq in Hk as ->. destruct Hk'.
    apply list_elem_of_fmap. by exists (k', v).
Qed.

Lemma dget_map_to_list (m : doc) k v :
  m !! k = Some v -> dget k (map_to_list m) = Some v.
Proof.
  intros Hk. apply dget_elem; [apply NoDup_fst_map_to_list|].
  by apply elem_of_map_to_list.
Qed.

Lemma v_items_images_dump i imgs :
  Forall (fun img => HttpUrl_ok (url img) = true) imgs ->
  v_items ProductImage_validate i (ProductImage_model_dump <$> imgs)
  = Valid imgs.
Proof.
  intros Hok. revert i. induction Hok as [|img imgs Himg _ IH]; intros i;
    [done|].
  rewrite fmap_cons. cbn [v_items].
  by rewrite ProductImage_revalidates, IH.
Qed.

Lemma v_items_str_dump i (l : list string) :
  v_items v_str i (VStr <$> l) = Valid l.
Proof.
  revert i. induction l as [|x l IH]; intros i; [done|].
  rewrite fmap_cons. cbn [v_items]. by rewrite IH.
Qed.

(** X17: the [model_dump] of a validated product, with the [id] item
    added as the handlers add it, validates again to the same product;
    for a product without images this is what [get_product] returns for
    it, sent back as a request body. *)
Theorem returned_product_revalidates b p (idv : value) :
  Product_validate b = Valid p ->
  Product_validate (body_of (<["id" := idv]> (Product_model_dump p)))
  = Valid p.
Proof.
  intros [Hprice Himgs]%Product_validate_checked.
  assert (Hget : forall k v, Product_model_dump p !! k = Some v ->
            dget k (map_to_list (<["id" := idv]> (Product_model_dump p)))
            = Some v).
  { intros k v Hk. apply dget_map_to_list. rewrite lookup_insert_ne; [done|].
    intros <-. assert (Hid : "id" ∈ Product_fields).
    { apply (Product_model_dump_fields p). by eexists. }
    unfold Product_fields, Product_plain_fields in Hid.
    repeat (apply elem_of_cons in Hid as [[=] | Hid]).
    by apply elem_of_nil in Hid. }
  unfold body_of, Product_validate.
  rewrite (required_Some "title" _ _ (VStr (title p)))
    by (apply Hget; unfold Product_model_dump; by simplify_map_eq).
  rewrite (defaulted_Some "description" _ _ _ (opt_value VStr (description p)))
    by (apply Hget; unfold Product_model_dump; by simplify_map_eq).
  rewrite (required_Some "price" _ _ (VFloat (price p)))
    by (apply Hget; unfold Product_model_dump; by simplify_map_eq).
  rewrite (required_Some "category" _ _ (VStr (category p)))
    by (apply Hget; unfold Product_model_dump; by simplify_map_eq).
  rewrite (defaulted_Some "subcategory" _ _ _ (opt_value VStr (subcategory p)))
    by (apply Hget; unfold Product_model_dump; by simplify_map_eq).
  rewrite (defaulted_Some "images" _ _ _
             (VList (ProductImage_model_dump <$> images p)))
    by (apply Hget; unfold Product_model_dump; by simplify_map_eq).
  rewrite (defaulted_Some "in_stock" _ _ _ (VBool (in_stock p)))
    by (apply Hget; unfold Product_model_dump; by simplify_map_eq).
  rewrite (defaulted_Some "featured" _ _ _ (VBool (featured p)))
    by (apply Hget; unfold Product_model_dump; by simplify_map_eq).
  rewrite (defaulted_Some "tags" _ _ _ (VList (VStr <$> tags p)))
    by (apply Hget; unfold Product_model_dump; by simplify_map_eq).
  cbn [v_str v_bool v_float v_list and_then at_loc].
  rewrite !v_optional_str_dump, v_items_images_dump, v_items_str_dump by done.
  unfold ge_0. rewrite Hprice. simpl. by destruct p.
Qed.

(** ** The remaining schemas and handlers *)

Lemma get_documents_shaped_in name q w :
  has_ids (collection w name) ->
  (items <- get_documents name q None ;;
   for_each (fun i => _doc_with_id (Some i)) items) w
  = (Return (shaped <$> coll_find q (collection w name)),
     logged w (Call_find name q)).
Proof.
  intros Hids. unfold bind at 1. unfold get_documents, bind, find, ret.
  by rewrite for_each_shaped by by apply has_ids_find.
Qed.

Lemma FAQ_validate_inv d faq :
  FAQ_validate (VDict d) = Valid faq ->
  dget "question" d = Some (VStr (question faq)) /\
  dget "answer" d = Some (VStr (answer faq)).
Proof.
  unfold FAQ_validate.
  intros (g & a & (h & q & [= <-] & Hq & ->)%ap_Valid_inv & Ha & ->)
    %ap_Valid_inv.
  apply (field_Valid_inv "question" q) in Hq as (vq & Hvq & ->%v_str_inv).
  apply (field_Valid_inv "answer" a) in Ha as (va & Hva & ->%v_str_inv).
  done.
Qed.

(** X18: a FAQ created by [POST /faqs] is the last item of the listing
    that follows, after the FAQs that were there; it is listed with the
    question and the answer of the body and the identifier returned. *)
Theorem faq_create_then_list d faq w :
  FAQ_validate (VDict d) = Valid faq ->
  has_ids (collection w "faq") ->
  let oid := oid_gen w (oid_count w) in
  exists w1 r,
    POST_faqs (VDict d) w = (Return {["id" := VStr (ObjectId_str oid)]}, w1) /\
    (list_faqs w1).1
      = Return ((shaped <$> collection w "faq") ++ [Some r])%list /\
    r !! "id" = Some (VStr (ObjectId_str oid)) /\
    r !! "question" = dget "question" d /\
    r !! "answer" = dget "answer" d /\
    r !! "_id" = None.
Proof.
  intros Hfaq Hids oid.
  exists (insert_one "faq" (FAQ_model_dump faq) w).2,
         (<["id" := VStr (ObjectId_str oid)]> (FAQ_model_dump faq)).
  pose proof (FAQ_encodable faq) as Henc.
  split.
  { unfold POST_faqs. rewrite Hfaq. unfold create_faq, bind.
    by rewrite (@create_document_run FAQ FAQ_BaseModel "faq" faq w Henc). }
  split.
  - unfold list_faqs. rewrite get_documents_shaped_in.
    + cbn [fst]. rewrite coll_find_all, collection_after_insert by done.
      unfold coll_insert_one. rewrite fmap_app. fold oid.
      rewrite list_fmap_singleton. unfold shaped at 2.
      rewrite lookup_insert_eq. cbn [py_str].
      rewrite delete_insert_id; [done|].
      unfold FAQ_model_dump. by simplify_map_eq.
    + rewrite collection_after_insert by done. unfold coll_insert_one.
      apply Forall_app. split; [done|]. constructor; [|constructor].
      rewrite lookup_insert_eq. by eexists.
  - apply FAQ_validate_inv in Hfaq as [-> ->].
    unfold FAQ_model_dump. repeat split; by simplify_map_eq.
Qed.

(** X19: a booking, FAQ or contact body that lacks one of the schema's
    required fields is rejected with a validation error that names the
    missing field, and the store is left as it was. *)
Theorem incomplete_bodies_rejected d k w :
  dget k d = None ->
  (k ∈ Booking_required ->
   exists errs,
     POST_bookings (VDict d) w = (Raise (RequestValidationError errs), w) /\
     ([LKey k], "missing") ∈ errs) /\
  (k ∈ FAQ_required ->
   exists errs,
     POST_faqs (VDict d) w = (Raise (RequestValidationError errs), w) /\
     ([LKey k], "missing") ∈ errs) /\
  (k ∈ ContactMessage_required ->
   exists errs,
     POST_contact (VDict d) w = (Raise (RequestValidationError errs), w) /\
     ([LKey k], "missing") ∈ errs).
Proof.
  intros Hk. repeat apply conj.
  - intros Hin.
    assert (Hrej : exists errs, Booking_validate (VDict d) = Invalid errs /\
                                ([LKey k], "missing") ∈ errs).
    { apply errors_of_Invalid. unfold Booking_validate.
      rewrite !errors_of_ap. simpl. unfold Booking_required in Hin.
      repeat (apply elem_of_cons in Hin as [-> | Hin]);
        [..|by apply elem_of_nil in Hin];
        rewrite (required_None _ _ _ Hk); rewrite !elem_of_app;
        pose proof (list_elem_of_here ([LKey "name"], "missing") []);
        pose proof (list_elem_of_here ([LKey "phone"], "missing") []);
        pose proof (list_elem_of_here ([LKey "service"], "missing") []);
        tauto. }
    destruct Hrej as (errs & Herrs & He). exists errs.
    unfold POST_bookings. by rewrite Herrs.
  - intros Hin.
    assert (Hrej : exists errs, FAQ_validate (VDict d) = Invalid errs /\
                                ([LKey k], "missing") ∈ errs).
    { apply errors_of_Invalid. unfold FAQ_validate.
      rewrite !errors_of_ap. simpl. unfold FAQ_required in Hin.
      repeat (apply elem_of_cons in Hin as [-> | Hin]);
        [..|by apply elem_of_nil in Hin];
        rewrite (required_None _ _ _ Hk); rewrite !elem_of_app;
        pose proof (list_elem_of_here ([LKey "question"], "missing") []);
        pose proof (list_elem_of_here ([LKey "answer"], "missing") []);
        tauto. }
    destruct Hrej as (errs & Herrs & He). exists errs.
    unfold POST_faqs. by rewrite Herrs.
  - intros Hin.
    assert (Hrej : exists errs,
              ContactMessage_validate (VDict d) = Invalid errs /\
              ([LKey k], "missing") ∈ errs).
    { apply errors_of_Invalid. unfold ContactMessage_validate.
      rewrite !errors_of_ap. simpl. unfold ContactMessage_required in Hin.
      repeat (apply elem_of_cons in Hin as [-> | Hin]);
        [..|by apply elem_of_nil in Hin];
        rewrite (required_None _ _ _ Hk); rewrite !elem_of_app;
        pose proof (list_elem_of_here ([LKey "name"], "missing") []);
        pose proof (list_elem_of_here ([LKey "email"], "missing") []);
        pose proof (list_elem_of_here ([LKey "message"], "missing") []);
        tauto. }
    destruct Hrej as (errs & Herrs & He). exists errs.
    unfold POST_contact. by rewrite Herrs.
Qed.

(** X20: [POST /contact] checks the email: a body whose email fails the
    email check is rejected with an error located at [email] and nothing
    is stored; a body that is accepted is stored in [contactmessage] with
    an email that passes the check. *)
Theorem contact_email_checked d w :
  (forall e, dget "email" d = Some (VStr e) -> EmailStr_ok e = false ->
     exists errs,
       POST_contact (VDict d) w = (Raise (RequestValidationError errs), w) /\
       ([LKey "email"], "value_error") ∈ errs) /\
  (forall r w', POST_contact (VDict d) w = (Return r, w') ->
     exists m,
       collection w' "contactmessage"
       = (collection w "contactmessage"
          ++ [<["_id" := VOid (oid_gen w (oid_count w))]>
                (ContactMessage_model_dump m)])%list /\
       EmailStr_ok (ContactMessage_.email m) = true).
Proof.
  split.
  - intros e He Hbad.
    assert (Hrej : exists errs,
              ContactMessage_validate (VDict d) = Invalid errs /\
              ([LKey "email"], "value_error") ∈ errs).
    { apply errors_of_Invalid. unfold ContactMessage_validate.
      rewrite !errors_of_ap. simpl. rewrite (required_Some _ _ _ _ He).
      unfold v_EmailStr. simpl. rewrite Hbad. simpl. rewrite !elem_of_app.
      pose proof (list_elem_of_here ([LKey "email"], "value_error") []).
      tauto. }
    destruct Hrej as (errs & Herrs & Hin). exists errs.
    unfold POST_contact. by rewrite Herrs.
  - intros r w'. unfold POST_contact.
    destruct (ContactMessage_validate (VDict d)) as [m|errs] eqn:Hm; [|done].
    pose proof (ContactMessage_encodable m) as Henc.
    unfold contact, bind.
    rewrite (@create_document_run ContactMessage ContactMessage_BaseModel
               "contactmessage" m w Henc).
    unfold ret. intros Heq. apply (f_equal snd) in Heq. cbn [snd] in Heq.
    subst w'. exists m. split.
    + by rewrite collection_after_insert by done.
    + unfold ContactMessage_validate in Hm.
      repeat (apply ap_Valid_inv in Hm as (? & ? & Hm & ? & ->)).
      injection Hm as <-. simpl.
      match goal with
      | Hmail : required "email" v_EmailStr d = Valid ?e |- _ =>
          apply (field_Valid_inv "email" e) in Hmail as (v & _ & Hv)
      end.
      unfold v_EmailStr in Hv. destruct (v_str v) as [s|]; [|done].
      simpl in Hv. destruct (EmailStr_ok s) eqn:Hs; [|done].
      by injection Hv as <-.
Qed.


(** ** Payments *)

Lemma configured_Some key : configured key = true ->
  exists k, key = Some k /\ k <> "".
Proof.
  destruct key as [k|]; [|done]. simpl. intros Hk%negb_true_iff.
  exists k. split; [done|]. by apply String.eqb_neq.
Qed.

(** X22: without a credential, unset or empty, each payment handler
    answers with its fixed mock and contacts no provider, whatever the
    payload and whether or not the packages are installed. *)
Theorem payments_mock_without_key o (intent : CreateStripeIntent)
    (init : CreatePaystackInit) :
  (configured (getenv o "STRIPE_SECRET_KEY") = false ->
   create_stripe_intent o intent
   = (Done (<["clientSecret" := VStr "mock_client_secret"]>
              {["mock" := VBool true]}), [])) /\
  (configured (getenv o "PAYSTACK_SECRET_KEY") = false ->
   create_paystack_transaction o init
   = (Done (<["authorization_url" := VStr "https://paystack.mock/checkout"]> (
            <["reference" := VStr "mock_ref"]> {["mock" := VBool true]})),
      [])).
Proof.
  split; intros Hkey.
  - unfold create_stripe_intent. by rewrite Hkey.
  - unfold create_paystack_transaction. by rewrite Hkey.
Qed.

(** X23: with a Stripe key configured, [create_stripe_intent] fails with
    a 500 and no provider call when the stripe package is missing;
    otherwise it calls the provider exactly once, with that key, one
    hundred times the payload's amount, the payload's currency in lower
    case and automatic payment methods enabled, and returns the provider's client secret; an exception of
    the provider is not caught. *)
Theorem stripe_intent_with_key o key (intent : CreateStripeIntent) :
  getenv o "STRIPE_SECRET_KEY" = Some key ->
  key <> "" ->
  let call := PaymentIntent_create key
                (100 * CreateStripeIntent_.amount intent)
                (lower o (CreateStripeIntent_.currency intent))
                {["enabled" := VBool true]} in
  (stripe_importable o = false ->
   create_stripe_intent o intent
   = (Failed (Own (HTTPException 500 "Stripe package not installed on server")),
      [])) /\
  (stripe_importable o = true ->
   (create_stripe_intent o intent).2 = [call] /\
   (forall secret,
      stripe_answer o key (100 * CreateStripeIntent_.amount intent)
        (lower o (CreateStripeIntent_.currency intent)) = inr secret ->
      (create_stripe_intent o intent).1
      = Done {["clientSecret" := VStr secret]}) /\
   (forall e,
      stripe_answer o key (100 * CreateStripeIntent_.amount intent)
        (lower o (CreateStripeIntent_.currency intent)) = inl e ->
      (create_stripe_intent o intent).1 = Failed (Foreign e))).
Proof.
  intros Hkey Hne call. unfold create_stripe_intent. rewrite Hkey.
  assert (Hconf : configured (Some key) = true).
  { simpl. apply negb_true_iff. by apply String.eqb_neq. }
  rewrite Hconf. change (default "" (Some key)) with key. cbn [negb].
  replace (CreateStripeIntent_.amount intent * 100)%Z
    with (100 * CreateStripeIntent_.amount intent)%Z by lia.
  split; intros Himp; rewrite Himp; cbn [negb]; [done|].
  split.
  - by destruct (stripe_answer o key
                   (100 * CreateStripeIntent_.amount intent)
                   (lower o (CreateStripeIntent_.currency intent))).
  - split; intros x Hx; by rewrite Hx.
Qed.

(** X24: with a Paystack key configured and [requests] importable,
    [create_paystack_transaction] posts exactly once, to the Paystack
    initialize URL, with the key as bearer token, a 20 second timeout,
    and a body holding the payload's email, one hundred times its amount
    and its currency as given (not lower-cased). *)
Theorem paystack_request_sent o key (init : CreatePaystackInit) :
  getenv o "PAYSTACK_SECRET_KEY" = Some key ->
  key <> "" ->
  requests_importable o = true ->
  exists req,
    (create_paystack_transaction o init).2 = [requests_post req] /\
    post_url req = "https://api.paystack.co/transaction/initialize" /\
    post_headers req !! "Authorization" = Some ("Bearer " ++ key) /\
    post_headers req !! "Content-Type" = Some "application/json" /\
    post_timeout req = 20%Z /\
    post_json req !! "email" = Some (VStr (CreatePaystackInit_.email init)) /\
    post_json req !! "amount"
      = Some (VInt (100 * CreatePaystackInit_.amount init)) /\
    post_json req !! "currency"
      = Some (VStr (CreatePaystackInit_.currency init)) /\
    dom (post_json req) = {["email"; "amount"; "currency"]}.
Proof.
  intros Hkey Hne Himp. exists (paystack_request key init).
  unfold create_paystack_transaction. rewrite Hkey.
  assert (Hconf : configured (Some key) = true).
  { simpl. apply negb_true_iff. by apply String.eqb_neq. }
  rewrite Hconf, Himp. change (default "" (Some key)) with key. cbn [negb]. split.
  - by destruct (requests_answer o _).
  - unfold paystack_request. cbn [post_url post_headers post_timeout post_json].
    replace (CreatePaystackInit_.amount init * 100)%Z
      with (100 * CreatePaystackInit_.amount init)%Z by lia.
    repeat split; by simplify_map_eq.
Qed.

(** X25: what [create_paystack_transaction] makes of the provider's
    reply: a status of 400 or more is raised as an [HTTPException] with
    that status and the reply's text, whatever its body; below 400, the
    authorization url and the reference found under [data] are returned,
    a reply without [data] raises [KeyError], and one whose body is not
    a JSON object raises too. *)
Theorem paystack_reply_handled o key (init : CreatePaystackInit) r :
  getenv o "PAYSTACK_SECRET_KEY" = Some key ->
  key <> "" ->
  requests_importable o = true ->
  requests_answer o (paystack_request key init) = inr r ->
  ((400 <= status_code r)%Z ->
   (create_paystack_transaction o init).1
   = Failed (Own (HTTPException (status_code r) (text r)))) /\
  ((status_code r < 400)%Z ->
   (forall j data u ref,
      json r = Some (VDict j) -> dget "data" j = Some (VDict data) ->
      dget "authorization_url" data = Some u ->
      dget "reference" data = Some ref ->
      (create_paystack_transaction o init).1
      = Done (<["authorization_url" := u]> {["reference" := ref]})) /\
   (forall j, json r = Some (VDict j) -> dget "data" j = None ->
      (create_paystack_transaction o init).1 = Failed (Own (KeyError "data"))) /\
   (json r = None ->
      (create_paystack_transaction o init).1
      = Failed (Foreign "JSONDecodeError")) /\
   (forall v, json r = Some v -> (forall j, v <> VDict j) ->
      (create_paystack_transaction o init).1 = Failed (Foreign "TypeError"))).
Proof.
  intros Hkey Hne Himp Hr. unfold create_paystack_transaction. rewrite Hkey.
  assert (Hconf : configured (Some key) = true).
  { simpl. apply negb_true_iff. by apply String.eqb_neq. }
  rewrite Hconf, Himp. change (default "" (Some key)) with key. cbn [negb]. rewrite Hr. cbn [fst]. split.
  - intros Hs. by replace (400 <=? status_code r)%Z with true
      by (symmetry; apply Z.leb_le; lia).
  - intros Hs. replace (400 <=? status_code r)%Z with false
      by (symmetry; apply Z.leb_gt; lia).
    repeat split.
    + intros j data u ref -> Hdata Hu Href. simpl.
      rewrite Hdata. simpl. by rewrite Hu, Href.
    + intros j -> Hdata. simpl. by rewrite Hdata.
    + by intros ->.
    + intros v -> Hv. destruct v as [| | | | | | | | |j]; try done.
      by destruct (Hv j).
Qed.

(** ** The connectivity diagnostic *)

(** X26: [test_database] always answers with the same six items; it
    reports [Connected] exactly when a store handle is present and lists
    its collections, and then it returns the first ten collection names
    at most, in the store's order; in every other case the collections
    are empty and the status is [Not Connected]. *)
Theorem test_database_report db o :
  let r := test_database db o in
  dom r = {["backend"; "database"; "database_url"; "database_name";
            "connection_status"; "collections"]} /\
  r !! "backend" = Some (VStr "✅ Running") /\
  match db with
  | Some {| handle_name := _; collection_names := inr names |} =>
      r !! "connection_status" = Some (VStr "Connected") /\
      r !! "collections" = Some (VList (VStr <$> take 10 names)) /\
      (length (take 10 names) <= 10)%nat
  | _ =>
      r !! "connection_status" = Some (VStr "Not Connected") /\
      r !! "collections" = Some (VList [])
  end.
Proof.
  intros r. unfold r, test_database.
  destruct db as [[name [e|names]]|]; cbn [collection_names handle_name].
  - split; [|by simplify_map_eq].
    rewrite !dom_insert_L, dom_empty_L. apply set_eq. intros x.
    rewrite !elem_of_union, !elem_of_singleton, elem_of_empty. tauto.
  - split; [|split; [by simplify_map_eq|]].
    + rewrite !dom_insert_L, dom_empty_L. apply set_eq. intros x.
      rewrite !elem_of_union, !elem_of_singleton, elem_of_empty. tauto.
    + split; [by simplify_map_eq|]. split; [by simplify_map_eq|].
      rewrite length_take. lia.
  - split; [|by simplify_map_eq].
    rewrite !dom_insert_L, dom_empty_L. apply set_eq. intros x.
    rewrite !elem_of_union, !elem_of_singleton, elem_of_empty. tauto.
Qed.

End Properties.

(** * Concrete runs *)

#[local] Existing Instance sample_library.

Lemma counter_gen_length n : length (counter_gen n) = 12%nat.
Proof. reflexivity. Qed.

Lemma counter_gen_distinct n m :
  (n < 256)%nat -> (m < 256)%nat -> counter_gen n = counter_gen m -> n = m.
Proof.
  intros Hn Hm. unfold counter_gen.
  intros [= Heq]%(app_inv_head (repeat Byte.x00 11)).
  destruct (Byte.of_nat n) as [bn|] eqn:Hbn;
    [|apply Byte.of_nat_None_iff in Hbn; lia].
  destruct (Byte.of_nat m) as [bm|] eqn:Hbm;
    [|apply Byte.of_nat_None_iff in Hbm; lia].
  simpl in Heq. subst bm.
  apply Byte.to_of_nat in Hbn, Hbm. congruence.
Qed.

(** The store invariant holds of the empty store. *)
Lemma empty_world_ok : world_ok 256 empty_world.
Proof.
  split.
  - apply counter_gen_length.
  - apply counter_gen_distinct.
  - simpl. lia.
  - intros name d. unfold collection. simpl. rewrite lookup_empty. simpl.
    by intros ?%elem_of_nil.
  - intros name. unfold collection. simpl. rewrite lookup_empty.
    apply unique_ids_nil.
Qed.

Lemma box_braids_validates :
  Product_validate (VDict box_braids) = Valid box_braids_product.
Proof. reflexivity. Qed.

(** The store with one product is the store [POST /products] leaves
    behind, and it satisfies the store invariant. *)
Lemma one_product_created :
  (POST_products (VDict box_braids) empty_world).2 = one_product.
Proof.
  unfold POST_products. rewrite box_braids_validates.
  unfold create_product, create_document, bind, insert_one, ret, one_product.
  cbn [snd fst oid_gen oid_count calls colls empty_world].
  unfold collection.
  change (colls empty_world) with (∅ : gmap string (list doc)).
  rewrite lookup_empty, insert_empty. reflexivity.
Qed.

Lemma one_product_ok : world_ok 256 one_product.
Proof.
  rewrite <- one_product_created. unfold POST_products.
  rewrite box_braids_validates.
  destruct (handlers_keep_world_ok 256 empty_world empty_world_ok)
    as (_ & _ & Hcreate & _).
  apply Hcreate. cbn [oid_count empty_world]. lia.
Qed.

Lemma one_product_collection :
  collection one_product "product" = [box_braids_stored].
Proof. reflexivity. Qed.

Lemma one_product_has_ids : has_ids (collection one_product "product").
Proof.
  rewrite one_product_collection. constructor; [|constructor].
  exists (VOid (counter_gen 0)). reflexivity.
Qed.

(** The round trip on an identifier with upper-case and lower-case
    letters gives the lower-case spelling. *)
Lemma roundtrip_lower_witness :
  valid_id_string "65A1B2C3d4e5f60718293a4b" = true /\
  roundtrip "65A1B2C3d4e5f60718293a4b" = Some "65a1b2c3d4e5f60718293a4b".
Proof.
  split; [reflexivity|].
  exact (proj1 (roundtrip_lower "65A1B2C3d4e5f60718293a4b" eq_refl)).
Defined.

(** C1 as stated fails on an identifier spelled in upper case: it is
    valid, and its round trip is the lower-case spelling. *)
Lemma roundtrip_upper_case_counterexample :
  valid_id_string "65A1B2C3D4E5F60718293A4B" = true /\
  roundtrip "65A1B2C3D4E5F60718293A4B" = Some "65a1b2c3d4e5f60718293a4b" /\
  roundtrip "65A1B2C3D4E5F60718293A4B" <> Some "65A1B2C3D4E5F60718293A4B".
Proof. repeat split; [reflexivity..|]. vm_compute. discriminate. Qed.

Lemma malformed_id_rejected_witness :
  String.length "box-braids" <> 24%nat /\
  get_product "box-braids" one_product
    = (Raise (HTTPException 400 "Invalid id"), one_product) /\
  update_product "box-braids" renamed_product one_product
    = (Raise (HTTPException 400 "Invalid id"), one_product) /\
  delete_product "box-braids" one_product
    = (Raise (HTTPException 400 "Invalid id"), one_product).
Proof.
  split; [simpl; lia|].
  apply (malformed_id_rejected "box-braids" renamed_product one_product).
  left. simpl. lia.
Defined.


Lemma spaced_id_decodes : ObjectId_of_str spaced_id = Some spaced_oid.
Proof. reflexivity. Qed.

(** C3 as stated fails on an identifier string with whitespace between
    its digit pairs: the string is not 24 hex digits, yet the decode
    accepts it, [find_one] is invoked and the answer is the 404. *)
Lemma spaced_id_reaches_store_counterexample :
  valid_id_string spaced_id = false /\
  get_product spaced_id one_product
    = (Raise (HTTPException 404 "Product not found"),
       logged one_product
         (Call_find_one "product" {["_id" := VOid spaced_oid]})) /\
  calls (get_product spaced_id one_product).2
    = Call_find_one "product" {["_id" := VOid spaced_oid]}
        :: calls one_product.
Proof.
  split; [reflexivity|].
  assert (Hget : get_product spaced_id one_product
            = (Raise (HTTPException 404 "Product not found"),
               logged one_product
                 (Call_find_one "product" {["_id" := VOid spaced_oid]}))).
  { unfold get_product, bind, _oid. rewrite spaced_id_decodes.
    unfold ret, find_one. rewrite coll_find_one_None; [done|].
    rewrite one_product_collection. constructor; [|constructor].
    rewrite matches_id. unfold box_braids_stored. rewrite lookup_insert_eq.
    intros Heq. discriminate Heq. }
  split; [exact Hget|]. by rewrite Hget.
Qed.


(** The URL of the image comes out of validation in its normalised
    form. *)
Lemma gallery_validates :
  Product_validate (VDict gallery) = Valid gallery_product.
Proof. reflexivity. Qed.

(** A valid body with an image is neither created nor written. *)
Lemma gallery_not_stored :
  (POST_products (VDict gallery) empty_world).1 = Raise InvalidDocument /\
  colls (POST_products (VDict gallery) empty_world).2 = colls empty_world /\
  (PUT_products first_id (VDict gallery) one_product).1
    = Raise InvalidDocument /\
  colls (PUT_products first_id (VDict gallery) one_product).2
    = colls one_product.
Proof.
  unfold POST_products, PUT_products. rewrite gallery_validates.
  destruct (create_product_unencodable gallery_product empty_world)
    as [Hpost Hcolls]; [discriminate|].
  split; [exact Hpost|]. split; [exact Hcolls|].
  assert (Himg : images gallery_product <> []) by discriminate.
  rewrite (update_product_unencodable first_id (counter_gen 0)
             gallery_product one_product eq_refl Himg).
  split; reflexivity.
Qed.


Lemma delete_twice_witness :
  exists w1 w2,
    delete_product first_id one_product
      = (Return {["deleted" := VBool true]}, w1) /\
    delete_product first_id w1
      = (Raise (HTTPException 404 "Product not found"), w2).
Proof.
  apply (delete_twice first_id (counter_gen 0) box_braids_stored one_product).
  - reflexivity.
  - rewrite one_product_collection. apply list_elem_of_here.
  - reflexivity.
  - rewrite one_product_collection. apply unique_ids_singleton.
Defined.

Lemma list_products_selected_witness :
  (list_products (Some "braids") (Some false) one_product).1
    = Return (shaped <$>
        filter (selected "braids" (Some false))
               (collection one_product "product")) /\
  Forall (fun r => exists d, r = Some d /\
                   d !! "category" = Some (VStr "braids") /\
                   forall b, Some false = Some b ->
                             d !! "featured" = Some (VBool b))
         (shaped <$>
            filter (selected "braids" (Some false))
                   (collection one_product "product")).
Proof.
  apply (list_products_selected "braids" (Some false) one_product).
  - discriminate.
  - exact one_product_has_ids.
Defined.

(** C4 as stated fails when the category supplied is the empty string:
    no stored product satisfies both equalities, yet the listing returns
    the product of category "braids". *)
Lemma list_products_empty_category_counterexample :
  filter (selected "" (Some false)) (collection one_product "product") = [] /\
  (list_products (Some "") (Some false) one_product).1
    = Return [shaped box_braids_stored] /\
  box_braids_stored !! "category" = Some (VStr "braids").
Proof. repeat split; vm_compute; reflexivity. Qed.

Lemma list_products_falsy_witness :
  list_products (Some "") (Some true) one_product
    = list_products None (Some true) one_product /\
  (list_products (Some "") None one_product).1
    = Return (shaped <$> collection one_product "product") /\
  (list_products (Some "") (Some false) one_product).1
    = Return (shaped <$>
        filter (fun d => d !! "featured" = Some (VBool false))
               (collection one_product "product")).
Proof.
  exact (list_products_falsy (Some true) one_product one_product_has_ids).
Defined.







Lemma sample_order_validates :
  Order_validate (VDict sample_order) = Valid sample_order_valid.
Proof. vm_compute. reflexivity. Qed.

Lemma order_unchecked_fields_accepted_witness :
  ("refunded" ∉ documented_statuses) /\
  ("refunded" ∉ documented_providers) /\
  (POST_orders (VDict (dset "items" (VList []) sample_order)) empty_world).1
    = Return {["id" := VStr first_id]} /\
  (POST_orders (VDict (dset "status" (VStr "refunded") sample_order))
               empty_world).1
    = Return {["id" := VStr first_id]} /\
  (POST_orders (VDict (dset "payment_provider" (VStr "refunded") sample_order))
               empty_world).1
    = Return {["id" := VStr first_id]}.
Proof.
  destruct (order_unchecked_fields_accepted sample_order sample_order_valid
              "refunded" empty_world sample_order_validates)
    as ((w1 & H1 & _) & (w2 & H2 & _) & (w3 & H3 & _)).
  split; [unfold documented_statuses; rewrite !elem_of_cons, elem_of_nil;
          intros Hk; repeat (destruct Hk as [[=] | Hk]); exact Hk|].
  split; [unfold documented_providers; rewrite !elem_of_cons, elem_of_nil;
          intros Hk; repeat (destruct Hk as [[=] | Hk]); exact Hk|].
  rewrite H1, H2, H3. repeat split.
Defined.

(** ** Concrete runs of the further properties *)

Lemma one_product_find :
  coll_find_one {["_id" := VOid (counter_gen 0)]}
                (collection one_product "product")
  = Some box_braids_stored.
Proof.
  rewrite one_product_collection.
  apply (coll_find_one_app _ [] _ []); [constructor|].
  apply matches_id. reflexivity.
Qed.

Lemma doc_with_id_reshapes_witness :
  exists r,
    _doc_with_id (Some box_braids_stored) one_product
      = (Return (Some r), one_product) /\
    r !! "id" = Some (VStr (py_str (VOid (counter_gen 0)))) /\
    r !! "_id" = None /\
    forall k, k <> "id" -> k <> "_id" -> r !! k = box_braids_stored !! k.
Proof.
  apply (doc_with_id_reshapes box_braids_stored (VOid (counter_gen 0))).
  reflexivity.
Defined.

Lemma doc_with_id_without_id_witness :
  _doc_with_id None empty_world = (Return None, empty_world) /\
  _doc_with_id (Some (Product_model_dump box_braids_product)) empty_world
  = (if decide (Product_model_dump box_braids_product = ∅)
     then Return None else Raise (KeyError "_id"), empty_world).
Proof.
  apply (doc_with_id_without_id (Product_model_dump box_braids_product)).
  apply Product_model_dump_id.
Defined.

Lemma get_product_found_witness :
  exists r,
    (get_product first_id one_product).1 = Return (Some r) /\
    r !! "id" = Some (VStr (str_lower (unspaced first_id))) /\
    (valid_id_string first_id = true ->
     r !! "id" = Some (VStr (str_lower first_id))) /\
    r !! "_id" = None /\
    (forall k, k <> "id" -> k <> "_id" -> r !! k = box_braids_stored !! k) /\
    colls (get_product first_id one_product).2 = colls one_product.
Proof.
  apply (get_product_found first_id (counter_gen 0)).
  - reflexivity.
  - exact one_product_find.
Defined.

Lemma one_product_updated :
  (update_product first_id renamed_product one_product).1
  = Return (<["id" := VStr first_id]> {["updated" := VBool true]}).
Proof.
  by rewrite (update_product_run first_id (counter_gen 0) renamed_product
                one_product
                [Product_model_dump renamed_product ∪ box_braids_stored] 1%Z).
Qed.

Lemma update_then_get_witness :
  exists r,
    (get_product first_id
       (update_product first_id renamed_product one_product).2).1
      = Return (Some r) /\
    r !! "id" = Some (VStr (ObjectId_str (counter_gen 0))) /\
    (forall k, k ∈ Product_fields ->
               r !! k = Product_model_dump renamed_product !! k) /\
    (forall k, k ∉ Product_fields -> k <> "id" -> k <> "_id" ->
               r !! k = box_braids_stored !! k).
Proof.
  destruct (update_then_get first_id (counter_gen 0) renamed_product
              box_braids_stored
              (<["id" := VStr first_id]> {["updated" := VBool true]})
              one_product)
    as (r & _ & _ & Hget & Hrest).
  - reflexivity.
  - exact one_product_find.
  - exact one_product_updated.
  - exists r. exact (conj Hget Hrest).
Defined.

Lemma delete_removes_identified_witness :
  exists c1 c2,
    collection one_product "product" = (c1 ++ box_braids_stored :: c2)%list /\
    (delete_product first_id one_product).1
      = Return {["deleted" := VBool true]} /\
    collection (delete_product first_id one_product).2 "product"
      = (c1 ++ c2)%list /\
    (get_product first_id (delete_product first_id one_product).2).1
      = Raise (HTTPException 404 "Product not found").
Proof.
  apply (delete_removes_identified first_id (counter_gen 0)).
  - reflexivity.
  - exact one_product_find.
  - rewrite one_product_collection. apply unique_ids_singleton.
Defined.

Lemma empty_world_next_absent :
  absent (oid_gen empty_world (oid_count empty_world))
         (collection empty_world "product").
Proof.
  apply world_ok_next_absent with 256%nat; [apply empty_world_ok|].
  cbn [oid_count empty_world]. lia.
Qed.

Lemma box_braids_created :
  (create_product box_braids_product empty_world).1
  = Return {["id" := VStr (ObjectId_str (counter_gen 0))]}.
Proof. by rewrite (create_product_run box_braids_product empty_world). Qed.

Lemma create_then_delete_witness :
  (delete_product (ObjectId_str (counter_gen 0))
     (create_product box_braids_product empty_world).2).1
    = Return {["deleted" := VBool true]} /\
  collection
    (delete_product (ObjectId_str (counter_gen 0))
       (create_product box_braids_product empty_world).2).2 "product"
    = collection empty_world "product".
Proof.
  apply (create_then_delete box_braids_product
           {["id" := VStr (ObjectId_str (counter_gen 0))]} empty_world).
  - exact box_braids_created.
  - reflexivity.
  - exact empty_world_next_absent.
Defined.

Lemma create_then_list_witness :
  (list_products None None
     (create_product renamed_product one_product).2).1
  = Return ((shaped <$> collection one_product "product")
            ++ [Some (<["id" := VStr (ObjectId_str (counter_gen 1))]>
                        (Product_model_dump renamed_product))])%list.
Proof.
  apply (create_then_list renamed_product
           {["id" := VStr (ObjectId_str (counter_gen 1))]} one_product).
  - by rewrite (create_product_run renamed_product one_product).
  - exact one_product_has_ids.
Defined.

Lemma handlers_keep_to_their_collection_witness :
  collection (create_product renamed_product one_product).2 "order"
    = collection one_product "order" /\
  collection (update_product first_id renamed_product one_product).2 "order"
    = collection one_product "order" /\
  collection (delete_product first_id one_product).2 "order"
    = collection one_product "order".
Proof.
  apply (handlers_keep_to_their_collection "order" first_id renamed_product
           sample_order_valid one_product).
  discriminate.
Defined.

Lemma valid_product_invariant_witness :
  SFleb float_zero (price gallery_product) = true /\
  Forall (fun i => HttpUrl_ok (url i) = true) (images gallery_product).
Proof.
  apply (valid_product_invariant (VDict gallery)).
  exact gallery_validates.
Defined.

Lemma valid_order_invariant_witness :
  SFleb float_zero (amount sample_order_valid) = true /\
  Forall (fun i => (1 <= quantity i)%Z) (items sample_order_valid) /\
  EmailStr_ok (email (customer sample_order_valid)) = true.
Proof.
  apply (valid_order_invariant (VDict sample_order)).
  exact sample_order_validates.
Defined.

Lemma order_defaults_witness :
  currency sample_order_valid = "NGN" /\
  status sample_order_valid = "pending" /\
  delivery_option sample_order_valid = "standard" /\
  country (address sample_order_valid) = "NG".
Proof.
  destruct (order_defaults sample_order sample_order_valid
              sample_order_validates)
    as (Hcur & Hstatus & Hdeliv & _ & _ & Hcountry & _).
  repeat apply conj.
  - apply Hcur. reflexivity.
  - apply Hstatus. reflexivity.
  - apply Hdeliv. reflexivity.
  - apply (Hcountry [("line1", VStr "1 Marina"); ("city", VStr "Lagos")]);
      reflexivity.
Defined.


Lemma nested_models_revalidate_witness :
  ProductImage_validate
    (ProductImage_model_dump
       {| url := "https://example.com/a.png"; alt := None |})
  = Valid {| url := "https://example.com/a.png"; alt := None |} /\
  CartItem_validate
    (CartItem_model_dump {| product_id := first_id; quantity := 2 |})
  = Valid {| product_id := first_id; quantity := 2 |}.
Proof.
  destruct (nested_models_revalidate
              {| url := "https://example.com/a.png"; alt := None |}
              {| product_id := first_id; quantity := 2 |}
              (customer sample_order_valid) (address sample_order_valid))
    as (Himage & Hitem & _).
  split; [apply Himage; reflexivity | apply Hitem; simpl; lia].
Defined.

Lemma returned_product_revalidates_witness :
  Product_validate
    (body_of (<["id" := VStr first_id]> (Product_model_dump gallery_product)))
  = Valid gallery_product.
Proof.
  apply (returned_product_revalidates (VDict gallery)).
  exact gallery_validates.
Defined.

Lemma sample_faq_validates :
  FAQ_validate (VDict sample_faq) = Valid sample_faq_valid.
Proof. reflexivity. Qed.

Lemma empty_world_has_ids name : has_ids (collection empty_world name).
Proof. apply (world_ok_has_ids 256). apply empty_world_ok. Qed.

Lemma faq_create_then_list_witness :
  exists w1 r,
    POST_faqs (VDict sample_faq) empty_world
      = (Return {["id" := VStr (ObjectId_str (counter_gen 0))]}, w1) /\
    (list_faqs w1).1
      = Return ((shaped <$> collection empty_world "faq") ++ [Some r])%list /\
    r !! "id" = Some (VStr (ObjectId_str (counter_gen 0))) /\
    r !! "question" = dget "question" sample_faq /\
    r !! "answer" = dget "answer" sample_faq /\
    r !! "_id" = None.
Proof.
  apply (faq_create_then_list sample_faq sample_faq_valid empty_world).
  - exact sample_faq_validates.
  - apply empty_world_has_ids.
Defined.

Lemma incomplete_bodies_rejected_witness :
  exists errs,
    POST_bookings (VDict sample_faq) empty_world
      = (Raise (RequestValidationError errs), empty_world) /\
    ([LKey "service"], "missing") ∈ errs.
Proof.
  destruct (incomplete_bodies_rejected sample_faq "service" empty_world)
    as (Hbooking & _).
  - reflexivity.
  - apply Hbooking. unfold Booking_required. rewrite !elem_of_cons. tauto.
Defined.

Lemma contact_email_checked_witness :
  exists errs,
    POST_contact (VDict sample_contact) empty_world
      = (Raise (RequestValidationError errs), empty_world) /\
    ([LKey "email"], "value_error") ∈ errs.
Proof.
  destruct (contact_email_checked sample_contact empty_world) as [Hbad _].
  apply (Hbad "ada.example.com"); reflexivity.
Defined.

Lemma payments_mock_without_key_witness :
  create_stripe_intent bare_outside sample_intent
  = (Done (<["clientSecret" := VStr "mock_client_secret"]>
             {["mock" := VBool true]}), []) /\
  create_paystack_transaction bare_outside sample_init
  = (Done (<["authorization_url" := VStr "https://paystack.mock/checkout"]> (
           <["reference" := VStr "mock_ref"]> {["mock" := VBool true]})), []).
Proof.
  destruct (payments_mock_without_key bare_outside sample_intent sample_init)
    as [Hstripe Hpaystack].
  split; [apply Hstripe | apply Hpaystack]; reflexivity.
Defined.

Lemma stripe_intent_with_key_witness :
  (create_stripe_intent live_outside sample_intent).2
    = [PaymentIntent_create "sk_test" 100000 "ngn"
         {["enabled" := VBool true]}] /\
  (create_stripe_intent live_outside sample_intent).1
    = Done {["clientSecret" := VStr "secret-1"]}.
Proof.
  destruct (stripe_intent_with_key live_outside "sk_test" sample_intent)
    as [_ Hlive].
  - reflexivity.
  - discriminate.
  - destruct (Hlive eq_refl) as (Hcall & Hsecret & _). split.
    + exact Hcall.
    + apply (Hsecret "secret-1"). reflexivity.
Defined.

Lemma paystack_request_sent_witness :
  exists req,
    (create_paystack_transaction live_outside sample_init).2
      = [requests_post req] /\
    post_url req = "https://api.paystack.co/transaction/initialize" /\
    post_headers req !! "Authorization" = Some ("Bearer " ++ "ps_test") /\
    post_headers req !! "Content-Type" = Some "application/json" /\
    post_timeout req = 20%Z /\
    post_json req !! "email"
      = Some (VStr (CreatePaystackInit_.email sample_init)) /\
    post_json req !! "amount"
      = Some (VInt (100 * CreatePaystackInit_.amount sample_init)) /\
    post_json req !! "currency"
      = Some (VStr (CreatePaystackInit_.currency sample_init)) /\
    dom (post_json req) = {["email"; "amount"; "currency"]}.
Proof.
  apply (paystack_request_sent live_outside "ps_test" sample_init).
  - reflexivity.
  - discriminate.
  - reflexivity.
Defined.

Lemma paystack_reply_handled_witness :
  (create_paystack_transaction live_outside sample_init).1
  = Done (<["authorization_url" := VStr "https://checkout.example/abc"]>
            {["reference" := VStr "ref-1"]}).
Proof.
  destruct (paystack_reply_handled live_outside "ps_test" sample_init
              sample_reply) as [_ Hok].
  - reflexivity.
  - discriminate.
  - reflexivity.
  - reflexivity.
  - destruct Hok as (Hfound & _); [simpl; lia|].
    eapply Hfound; reflexivity.
Defined.

